(** * Shallow embedding of [dev/fuzzy_test/fuzzy_explore.py]

    Files are identified by their name inside the analysed folder (the
    [Path] objects of one folder differ exactly when their names do).
    Strings are Stdlib [string]s of ASCII characters; Python's [str]
    comparison is lexicographic by code point, which is [String.compare]
    on ASCII.  Similarity scores ([fuzz.ratio]) are exact rationals. *)

From Stdlib Require Import List Bool Arith Lia ZArith QArith.
From Stdlib Require Import Strings.String Strings.Ascii.
From Stdlib Require Import Sorting.Permutation Sorting.Sorted.
Import ListNotations.
Open Scope string_scope.
Open Scope list_scope.
Open Scope nat_scope.

(* ------------------------------------------------------------------ *)
(** ** Python exceptions *)

Inductive exn :=
| ZeroDivisionError
| OSError (path : string)
| RuntimeError.

Inductive result (A : Type) :=
| Ok (a : A)
| Raise (e : exn).
Arguments Ok {A} a.
Arguments Raise {A} e.

Definition bind {A B} (m : result A) (k : A -> result B) : result B :=
  match m with
  | Ok a => k a
  | Raise e => Raise e
  end.

Notation "x <- m ;; k" := (bind m (fun x => k))
  (at level 61, m at next level, right associativity).

(** Python's true division [a / b] on numbers, with its
    [ZeroDivisionError]. *)
Definition py_div (a b : nat) : result Q :=
  if Nat.eqb b 0 then Raise ZeroDivisionError
  else Ok (inject_Z (Z.of_nat a) / inject_Z (Z.of_nat b))%Q.

(* ------------------------------------------------------------------ *)
(** ** String helpers *)

(** [s.startswith(p)] *)
Definition startswith (s p : string) : bool := String.prefix p s.

(** [sub in s] *)
Fixpoint contains (sub s : string) : bool :=
  String.prefix sub s ||
  match s with
  | EmptyString => false
  | String _ s' => contains sub s'
  end.

(** [s[i:j]] for [0 <= i <= j]. *)
Definition slice (s : string) (i j : nat) : string :=
  String.substring i (j - i) s.

(** [s[i:]] *)
Definition drop (s : string) (i : nat) : string :=
  String.substring i (String.length s - i) s.

Definition ascii_lower (c : ascii) : ascii :=
  let n := nat_of_ascii c in
  if (65 <=? n) && (n <=? 90) then ascii_of_nat (n + 32) else c.

(** [s.lower()] *)
Fixpoint lower (s : string) : string :=
  match s with
  | EmptyString => EmptyString
  | String c s' => String (ascii_lower c) (lower s')
  end.

(** [c.isalnum()] on ASCII *)
Definition is_alnum (c : ascii) : bool :=
  let n := nat_of_ascii c in
  ((48 <=? n) && (n <=? 57)) || ((65 <=? n) && (n <=? 90)) ||
  ((97 <=? n) && (n <=? 122)).

(** [name.rfind('.')], [None] for [-1]. *)
Fixpoint rfind_dot_from (i : nat) (s : string) (acc : option nat) : option nat :=
  match s with
  | EmptyString => acc
  | String c s' =>
      rfind_dot_from (S i) s' (if Ascii.eqb c "." then Some i else acc)
  end.

Definition rfind_dot (s : string) : option nat := rfind_dot_from 0 s None.

(** [PurePath.stem]: [i = name.rfind('.'); name[:i] if 0 < i < len(name) - 1
    else name]. *)
Definition stem (name : string) : string :=
  match rfind_dot name with
  | Some i =>
      if (0 <? i) && (i <? String.length name - 1)
      then slice name 0 i else name
  | None => name
  end.

(** [PurePath.suffix] *)
Definition suffix (name : string) : string :=
  match rfind_dot name with
  | Some i =>
      if (0 <? i) && (i <? String.length name - 1)
      then drop name i else ""
  | None => ""
  end.

(* ------------------------------------------------------------------ *)
(** ** Python containers *)

Definition mem (x : string) (l : list string) : bool :=
  existsb (String.eqb x) l.

(** [sorted(xs, key=...)]: a stable insertion sort by a boolean
    "less or equal" on keys. *)
Section Sort.
Context {A : Type} (le : A -> A -> bool).

Fixpoint insert_by (x : A) (l : list A) : list A :=
  match l with
  | [] => [x]
  | y :: l' => if le x y then x :: y :: l' else y :: insert_by x l'
  end.

Fixpoint sort_by (l : list A) : list A :=
  match l with
  | [] => []
  | x :: l' => insert_by x (sort_by l')
  end.
End Sort.

(** [key=lambda p: p.name] *)
Definition sort_names (l : list string) : list string := sort_by String.leb l.

(** [key=lambda s: (-len(s), s)] *)
Definition len_desc_leb (a b : string) : bool :=
  (String.length b <? String.length a) ||
  ((String.length a =? String.length b) && String.leb a b).

Definition sort_len_desc (l : list string) : list string :=
  sort_by len_desc_leb l.

(** A Python [set] of strings built by [add]: first occurrences kept. *)
Definition set_add (x : string) (s : list string) : list string :=
  if mem x s then s else s ++ [x].

Definition set_of (l : list string) : list string :=
  fold_left (fun s x => set_add x s) l [].

(** A [Dict[Path, bool]]: [get] and item assignment ([d[k] = v] updates in
    place, or appends a new key at the end). *)
Fixpoint dict_get (d : list (string * bool)) (k : string) : bool :=
  match d with
  | [] => false
  | (k', v) :: d' => if String.eqb k k' then v else dict_get d' k
  end.

Fixpoint dict_set (d : list (string * bool)) (k : string) (v : bool)
  : list (string * bool) :=
  match d with
  | [] => [(k, v)]
  | (k', v') :: d' =>
      if String.eqb k k' then (k', v) :: d' else (k', v') :: dict_set d' k v
  end.

(* ------------------------------------------------------------------ *)
(** ** Data model *)

Definition VIDEO_EXTENSIONS : list string := [".mp4"; ".mkv"; ".avi"].
Definition ASSET_EXTENSIONS : list string := [".jpg"; ".jpeg"; ".nfo"].
Definition ALL_EXTENSIONS : list string := VIDEO_EXTENSIONS ++ ASSET_EXTENSIONS.

Definition SIMILARITY_THRESHOLD : Z := 90.

Record Cluster := { seed : string; members : list string }.

Record FinalCluster :=
  { core_guess : string; fc_members : list string; video_count : nat }.

(** [_is_hidden] *)
Definition is_hidden (name : string) : bool := String.prefix "." name.

(** [_list_candidate_files]: the directory entries as [(name, is_file)]
    pairs in [iterdir()] order. *)
Definition list_candidate_files (entries : list (string * bool)) : list string :=
  let files :=
    fold_left
      (fun files '(name, is_file) =>
         if negb is_file then files
         else if is_hidden name then files
         else if mem (lower (suffix name)) ALL_EXTENSIONS then files ++ [name]
         else files)
      entries [] in
  sort_names files.

(** [_split_files_by_role] *)
Definition split_files_by_role (files : list string) : list string * list string :=
  let '(v, a) :=
    fold_left
      (fun '(v, a) f =>
         let ext := lower (suffix f) in
         if mem ext VIDEO_EXTENSIONS then (v ++ [f], a)
         else if mem ext ASSET_EXTENSIONS then (v, a ++ [f])
         else (v, a))
      files ([], []) in
  (sort_names v, sort_names a).

(* ------------------------------------------------------------------ *)
(** ** [_cluster_files]: greedy seed-based clustering

    The similarity function [fuzz.ratio] is a parameter; the threshold is
    an argument so that [cluster_files_at SIMILARITY_THRESHOLD] is the
    function of the source. *)

Section Clustering.
Variable ratio : string -> string -> Q.
Variable threshold : Z.

(** [score >= SIMILARITY_THRESHOLD] *)
Definition meets (a b : string) : bool :=
  Qle_bool (inject_Z threshold) (ratio a b).

(** The inner loop over the other videos, threading the member list and
    [assigned_videos]. *)
Fixpoint scan_videos (seed_name : string) (others : list string)
    (cluster_members : list string) (assigned_videos : list (string * bool))
    : list string * list (string * bool) :=
  match others with
  | [] => (cluster_members, assigned_videos)
  | other :: rest =>
      if String.eqb other seed_name
      then scan_videos seed_name rest cluster_members assigned_videos
      else if dict_get assigned_videos other
      then scan_videos seed_name rest cluster_members assigned_videos
      else if meets seed_name other
      then scan_videos seed_name rest (cluster_members ++ [other])
             (dict_set assigned_videos other true)
      else scan_videos seed_name rest cluster_members assigned_videos
  end.

(** The loop attaching assets, threading [assigned_assets]. *)
Fixpoint scan_assets (seed_name : string) (assets : list string)
    (cluster_members : list string) (assigned_assets : list (string * bool))
    : list string * list (string * bool) :=
  match assets with
  | [] => (cluster_members, assigned_assets)
  | asset :: rest =>
      if dict_get assigned_assets asset
      then scan_assets seed_name rest cluster_members assigned_assets
      else if meets seed_name asset
      then scan_assets seed_name rest (cluster_members ++ [asset])
             (dict_set assigned_assets asset true)
      else scan_assets seed_name rest cluster_members assigned_assets
  end.

Record ClusterState :=
  { clusters : list Cluster;
    assigned_videos : list (string * bool);
    assigned_assets : list (string * bool) }.

(** One iteration of the outer [for seed in sorted(video_files)] loop. *)
Definition seed_step (video_files asset_files : list string)
    (st : ClusterState) (s : string) : ClusterState :=
  if dict_get (assigned_videos st) s then st
  else
    let av := dict_set (assigned_videos st) s true in
    let '(m1, av') := scan_videos s (sort_names video_files) [s] av in
    let '(m2, aa') := scan_assets s (sort_names asset_files) m1
                        (assigned_assets st) in
    let cl := if 2 <=? List.length m2
              then clusters st ++ [{| seed := s; members := sort_names m2 |}]
              else clusters st in
    {| clusters := cl; assigned_videos := av'; assigned_assets := aa' |}.

Definition unassigned (d : list (string * bool)) : list string :=
  map fst (filter (fun kv => negb (snd kv)) d).

Definition cluster_files_at (video_files asset_files : list string)
    : list Cluster * list string :=
  let st0 := {| clusters := [];
                assigned_videos := map (fun vf => (vf, false)) video_files;
                assigned_assets := map (fun af => (af, false)) asset_files |} in
  let st := fold_left (seed_step video_files asset_files)
              (sort_names video_files) st0 in
  let singleton_files := unassigned (assigned_videos st) ++
                         unassigned (assigned_assets st) in
  (clusters st, sort_names singleton_files).
End Clustering.

Definition cluster_files (ratio : string -> string -> Q) :=
  cluster_files_at ratio SIMILARITY_THRESHOLD.

(* ------------------------------------------------------------------ *)
(** ** Core extraction *)

(** The [while not s.startswith(prefix) and prefix: prefix = prefix[:-1]]
    loop; it runs at most [len(prefix)] times. *)
Fixpoint trim_prefix (fuel : nat) (prefix s : string) : string :=
  match fuel with
  | O => prefix
  | S fuel' =>
      if negb (startswith s prefix) && negb (String.eqb prefix "")
      then trim_prefix fuel' (slice prefix 0 (String.length prefix - 1)) s
      else prefix
  end.

Fixpoint lcp_loop (prefix : string) (rest : list string) : string :=
  match rest with
  | [] => prefix
  | s :: rest' =>
      if String.eqb prefix "" then prefix
      else lcp_loop (trim_prefix (String.length prefix) prefix s) rest'
  end.

(** [_longest_common_prefix] *)
Definition longest_common_prefix (strings : list string) : string :=
  match strings with
  | [] => ""
  | s0 :: rest => lcp_loop s0 rest
  end.

(** [_split_decoration_tokens]: [current] is kept as a string. *)
Definition is_separator (c : ascii) : bool :=
  mem (String c EmptyString) ["-"; "_"; " "; "."].

Fixpoint split_tokens_loop (s : string) (current : string) (tokens : list string)
  : list string :=
  match s with
  | EmptyString => if String.eqb current "" then tokens else tokens ++ [current]
  | String ch s' =>
      if is_separator ch
      then if String.eqb current ""
           then split_tokens_loop s' current tokens
           else split_tokens_loop s' "" (tokens ++ [current])
      else split_tokens_loop s' (current ++ String ch EmptyString) tokens
  end.

Definition split_decoration_tokens (decoration_part : string) : list string :=
  if String.eqb decoration_part "" then []
  else split_tokens_loop decoration_part "" [].

(** [_compute_core_and_decorations]; [cluster.seed] is a [Path], never
    [None]. *)
Definition compute_core_and_decorations (cluster : Cluster)
  : string * list (string * list string) :=
  let stems := map stem (members cluster) in
  let core0 := longest_common_prefix stems in
  let core := if String.eqb core0 "" then stem (seed cluster) else core0 in
  let decorations :=
    map (fun path =>
           let st := stem path in
           let decoration_part :=
             if negb (String.eqb core "") && startswith st core
             then drop st (String.length core) else st in
           (path, split_decoration_tokens decoration_part))
        (members cluster) in
  (core, decorations).

(* ------------------------------------------------------------------ *)
(** ** [_build_final_clusters] *)

(** [for i in range(la): for j in range(i + 2, la + 1): a[i:j]] *)
Definition substrings_ge2 (a : string) : list string :=
  let la := String.length a in
  flat_map (fun i => map (fun j => slice a i j) (seq (i + 2) (la + 1 - (i + 2))))
           (seq 0 la).

(** [_common_substrings] *)
Definition common_substrings (a b : string) : list string :=
  set_of (filter (fun sub => contains sub b) (substrings_ge2 a)).

(** [for other in sample[1:]: current &= other_subs; if not current: break] *)
Fixpoint intersect_loop (base : string) (current : list string) (others : list string)
  : list string :=
  match others with
  | [] => current
  | other :: rest =>
      let other_subs := common_substrings base other in
      let current' := filter (fun s => mem s other_subs) current in
      match current' with
      | [] => current'
      | _ => intersect_loop base current' rest
      end
  end.

(** [_normalize_tag]: the two [while] loops strip the leading, then the
    trailing, non-alphanumeric characters. *)
Fixpoint lstrip_nonalnum (s : string) : string :=
  match s with
  | EmptyString => EmptyString
  | String c s' => if is_alnum c then s else lstrip_nonalnum s'
  end.

Fixpoint rstrip_nonalnum (s : string) : string :=
  match s with
  | EmptyString => EmptyString
  | String c s' =>
      let r := rstrip_nonalnum s' in
      if String.eqb r "" && negb (is_alnum c) then EmptyString else String c r
  end.

Definition normalize_tag (s : string) : string :=
  rstrip_nonalnum (lstrip_nonalnum s).

(** A [Dict[str, str]]. *)
Fixpoint sdict_get (d : list (string * string)) (k : string) : option string :=
  match d with
  | [] => None
  | (k', v) :: d' => if String.eqb k k' then Some v else sdict_get d' k
  end.

Fixpoint sdict_set (d : list (string * string)) (k v : string)
  : list (string * string) :=
  match d with
  | [] => [(k, v)]
  | (k', v') :: d' =>
      if String.eqb k k' then (k', v) :: d' else (k', v') :: sdict_set d' k v
  end.

(** The [tag_map] loop over [raw_substrings]. *)
Definition tag_map_of (raw_substrings : list string) : list (string * string) :=
  fold_left
    (fun tag_map sub =>
       if String.length sub <? 3 then tag_map
       else
         let norm := normalize_tag sub in
         if String.eqb norm "" then tag_map
         else match sdict_get tag_map norm with
              | None => sdict_set tag_map norm sub
              | Some prev =>
                  if String.length prev <? String.length sub
                  then sdict_set tag_map norm sub else tag_map
              end)
    raw_substrings [].

(** Lines 224-273: the shared substrings mined from the normal cores. *)
Definition mine_shared_substrings (normal_cores : list string) : list string :=
  match normal_cores with
  | [] => []
  | _ =>
      let sample := firstn 5 normal_cores in
      let base := hd "" sample in
      let current := set_of (substrings_ge2 base) in
      let current := intersect_loop base current (tl sample) in
      let raw_substrings := sort_len_desc current in
      sort_len_desc (map snd (tag_map_of raw_substrings))
  end.

(** Lines 196-210: the tiering of the deduplicated core candidates, after
    [avg_len] has been computed; [len(c) >= short_threshold] compares an
    integer with a float, here exactly. *)
Definition tier_with (short_threshold : Q) (core_candidates : list string)
  : list string * list string :=
  let normal_cores :=
    filter (fun c => Qle_bool short_threshold (inject_Z (Z.of_nat (String.length c))))
      core_candidates in
  let short_cores :=
    filter (fun c => negb (Qle_bool short_threshold
                             (inject_Z (Z.of_nat (String.length c)))))
      core_candidates in
  (sort_names normal_cores, sort_len_desc short_cores).

Definition sum_lengths (l : list string) : nat :=
  fold_left (fun acc c => acc + String.length c) l 0.

(** [ordered_cores.index(c)] *)
Fixpoint index_of (c : string) (l : list string) : nat :=
  match l with
  | [] => 0
  | x :: l' => if String.eqb c x then 0 else S (index_of c l')
  end.

(** [max(matching_cores, key=lambda c: (len(c), -ordered_cores.index(c)))]:
    the first element whose key is maximal. *)
Definition key_lt (ordered_cores : list string) (a b : string) : bool :=
  (String.length a <? String.length b) ||
  ((String.length a =? String.length b) &&
   (index_of b ordered_cores <? index_of a ordered_cores)).

Definition max_by_key (ordered_cores : list string) (x : string) (l : list string)
  : string :=
  fold_left (fun best c => if key_lt ordered_cores best c then c else best) l x.

(** The per-file choice of lines 280-289; [None] for [continue]. *)
Definition best_core (ordered_cores : list string) (f : string) : option string :=
  let st := stem f in
  match filter (fun core => startswith st core) ordered_cores with
  | [] => None
  | c :: cs => Some (max_by_key ordered_cores c cs)
  end.

(** [core_to_members: Dict[str, List[Path]]] *)
Fixpoint ldict_get (d : list (string * list string)) (k : string) : list string :=
  match d with
  | [] => []
  | (k', v) :: d' => if String.eqb k k' then v else ldict_get d' k
  end.

(** [core_to_members[k].append(f)] *)
Fixpoint ldict_append (d : list (string * list string)) (k f : string)
  : list (string * list string) :=
  match d with
  | [] => []
  | (k', v) :: d' =>
      if String.eqb k k' then (k', v ++ [f]) :: d'
      else (k', v) :: ldict_append d' k f
  end.

(** [{core: [] for core in ordered_cores}] *)
Definition ldict_init (keys : list string) : list (string * list string) :=
  map (fun k => (k, [])) (set_of keys).

Definition assign_files (ordered_cores all_files : list string)
  : list (string * list string) :=
  fold_left
    (fun d f => match best_core ordered_cores f with
                | None => d
                | Some c => ldict_append d c f
                end)
    all_files (ldict_init ordered_cores).

Definition is_video (f : string) : bool := mem (lower (suffix f)) VIDEO_EXTENSIONS.

Definition make_final_clusters (ordered_cores : list string)
    (core_to_members : list (string * list string)) : list FinalCluster :=
  fold_left
    (fun acc core =>
       let ms := ldict_get core_to_members core in
       match ms with
       | [] => acc
       | _ => acc ++ [{| core_guess := core; fc_members := sort_names ms;
                         video_count := List.length (filter is_video ms) |}]
       end)
    ordered_cores [].

Definition BuildResult : Type :=
  (list FinalCluster * list string * list string * list string * list string)%type.

(** Lines 181-189: the non-empty cores of the fuzzy clusters, as
    [sorted(set(core_candidates))]. *)
Definition core_candidates_of (initial_clusters : list Cluster) : list string :=
  let core_candidates :=
    fold_left (fun acc cl =>
                 let '(core, _) := compute_core_and_decorations cl in
                 if String.eqb core "" then acc else acc ++ [core])
      initial_clusters [] in
  sort_names (set_of core_candidates).

(** Lines 196-208: [avg_len], [short_threshold] and the two tiers. *)
Definition tier_cores (core_candidates : list string)
  : result (list string * list string) :=
  avg_len <- py_div (sum_lengths core_candidates) (List.length core_candidates) ;;
  let short_threshold := ((1 # 2) * avg_len)%Q in
  Ok (tier_with short_threshold core_candidates).

Definition build_final_clusters (initial_clusters : list Cluster)
    (video_files asset_files : list string) : result BuildResult :=
  let all_files := sort_names (video_files ++ asset_files) in
  let core_candidates := core_candidates_of initial_clusters in
  match core_candidates with
  | [] => Ok ([], all_files, [], [], [])
  | _ =>
      tiers <- tier_cores core_candidates ;;
      let '(normal_cores, short_cores) := tiers in
      let ordered_cores := normal_cores ++ short_cores in
      let shared_substrings := mine_shared_substrings normal_cores in
      let core_to_members := assign_files ordered_cores all_files in
      let final_clusters := make_final_clusters ordered_cores core_to_members in
      let assigned := flat_map snd core_to_members in
      let final_singletons :=
        sort_names (filter (fun f => negb (mem f assigned)) all_files) in
      Ok (final_clusters, final_singletons, core_candidates, normal_cores,
          shared_substrings)
  end.

(* ------------------------------------------------------------------ *)
(** ** The significant tag of [_write_report] (lines 389-512) *)








(** [sum(1 for c in normal_cores if norm in c)] *)
Definition coverage (normal_cores : list string) (s : string) : nat :=
  List.length (filter (fun c => contains s c) normal_cores).




(* ------------------------------------------------------------------ *)
(** ** [main]: the folder loop

    The operating system is reached through [FileSystem], whose reads may
    raise.  [Path(arg).expanduser()] and [folder.resolve()] depend on the
    home directory, the working directory and the symbolic links, so they
    are given by the environment: [fs_expanduser] ([RuntimeError] when no
    home directory is known) and [fs_resolve].  [fs_exists] and [fs_is_dir]
    answer [Path.exists()] and [Path.is_dir()], which raise on errors other
    than a missing path (a [PermissionError], for one).  [fs_iterdir] is
    what [_list_candidate_files] reads: each entry's name with the answer of
    [entry.is_file()], or the exception raised by [iterdir()] or by one of
    the [is_file()] calls; [_list_candidate_files] has no other effect, so
    where it raises makes no difference.  [_write_report] is modelled by its
    effect: the attempt to write the report file, which fails when
    [fs_write_ok] says so ([mkdir] or [write_text] raising [OSError]).  The
    report text itself is not modelled here. *)

Record FileSystem :=
  { fs_expanduser : string -> result string;
    fs_resolve : string -> result string;
    fs_exists : string -> result bool;
    fs_is_dir : string -> result bool;
    fs_iterdir : string -> result (list (string * bool));
    fs_write_ok : string -> bool }.

(** [[f(x) for x in xs]] for an [f] that may raise: the first exception
    escapes. *)
Fixpoint map_result {A B} (f : A -> result B) (l : list A) : result (list B) :=
  match l with
  | [] => Ok []
  | x :: l' => y <- f x ;; ys <- map_result f l' ;; Ok (y :: ys)
  end.

Inductive event :=
| Usage
| WarnMissing (folder : string)
| WarnNotDir (folder : string)
| InfoNoCandidates (folder : string)
| WriteAttempt (report_path : string)
| Wrote (report_path : string).

(** [folder.name]: the part after the last ['/']. *)
Fixpoint base_name_loop (s : string) (cur : string) : string :=
  match s with
  | EmptyString => cur
  | String c s' =>
      if Ascii.eqb c "/" then base_name_loop s' ""
      else base_name_loop s' (cur ++ String c EmptyString)
  end.

Definition base_name (folder : string) : string := base_name_loop folder "".

Fixpoint map_string (f : ascii -> ascii) (s : string) : string :=
  match s with
  | EmptyString => EmptyString
  | String c s' => String (f c) (map_string f s')
  end.

(** [s.strip("_")] *)
Fixpoint lstrip_us (s : string) : string :=
  match s with
  | String "_" s' => lstrip_us s'
  | _ => s
  end.

Fixpoint rstrip_us (s : string) : string :=
  match s with
  | EmptyString => EmptyString
  | String c s' =>
      let r := rstrip_us s' in
      if String.eqb r "" && Ascii.eqb c "_" then EmptyString else String c r
  end.

(** [_sanitize_folder_name] *)
Definition sanitize_folder_name (folder : string) : string :=
  let base := if String.eqb (base_name folder) "" then "root" else base_name folder in
  let sanitized := rstrip_us (lstrip_us
                     (map_string (fun ch => if is_alnum ch then ch else "_"%char) base)) in
  if String.eqb sanitized "" then "folder" else sanitized.

Definition report_path (timestamp folder : string) : string :=
  "dev/fuzzy_test/logs/" ++ timestamp ++ "_" ++ sanitize_folder_name folder ++ ".txt".

(** [_write_report(...)], as far as its effect goes. *)
Definition write_report (fs : FileSystem) (path : string) : list event * result unit :=
  if fs_write_ok fs path then ([WriteAttempt path; Wrote path], Ok tt)
  else ([WriteAttempt path], Raise (OSError path)).

(** The body of [for folder in folder_args], from [folder.resolve()]. *)
Definition process_folder (ratio : string -> string -> Q) (fs : FileSystem)
    (timestamp folder_arg : string) : list event * result unit :=
  match fs_resolve fs folder_arg with
  | Raise e => ([], Raise e)
  | Ok folder =>
      match fs_exists fs folder with
      | Raise e => ([], Raise e)
      | Ok false => ([WarnMissing folder], Ok tt)
      | Ok true =>
          match fs_is_dir fs folder with
          | Raise e => ([], Raise e)
          | Ok false => ([WarnNotDir folder], Ok tt)
          | Ok true =>
              match fs_iterdir fs folder with
              | Raise e => ([], Raise e)
              | Ok entries =>
                  match list_candidate_files entries with
                  | [] => ([InfoNoCandidates folder], Ok tt)
                  | candidate_files =>
                      let '(video_files, asset_files) :=
                        split_files_by_role candidate_files in
                      let '(initial_clusters, _) :=
                        cluster_files ratio video_files asset_files in
                      match build_final_clusters initial_clusters video_files
                              asset_files with
                      | Raise e => ([], Raise e)
                      | Ok _ => write_report fs (report_path timestamp folder)
                      end
                  end
              end
          end
      end
  end.

Fixpoint run_folders (ratio : string -> string -> Q) (fs : FileSystem)
    (timestamp : string) (folders : list string) : list event * result unit :=
  match folders with
  | [] => ([], Ok tt)
  | folder :: rest =>
      let '(ev, r) := process_folder ratio fs timestamp folder in
      match r with
      | Raise e => (ev, Raise e)
      | Ok _ =>
          let '(ev', r') := run_folders ratio fs timestamp rest in
          (ev ++ ev', r')
      end
  end.

(** [main(argv)]: the emitted events and the exit code, or the exception
    that escapes. *)
Definition main (ratio : string -> string -> Q) (fs : FileSystem)
    (timestamp : string) (argv : list string) : list event * result nat :=
  match argv with
  | [] => ([Usage], Ok 1)
  | _ =>
      match map_result (fs_expanduser fs) argv with
      | Raise e => ([], Raise e)
      | Ok folder_args =>
          let '(ev, r) := run_folders ratio fs timestamp folder_args in
          (ev, bind r (fun _ => Ok 0))
      end
  end.

(* ------------------------------------------------------------------ *)
(** ** The similarity function of the [rapidfuzz] dependency

    [fuzz.ratio(a, b)] is [100 * (1 - indel(a, b) / (len(a) + len(b)))]
    with [indel(a, b) = len(a) + len(b) - 2 * LCS(a, b)], and [100] for two
    empty strings; that is [200 * LCS(a, b) / (len(a) + len(b))]. *)

(** One row of the LCS table: [up] is the previous row without its
    leading [0], [diag] and [left] the neighbouring cells. *)
Fixpoint lcs_row (x : ascii) (b : string) (diag : nat) (up : list nat) (left : nat)
  : list nat :=
  match b, up with
  | String y b', u :: up' =>
      let v := if Ascii.eqb x y then S diag else Nat.max u left in
      v :: lcs_row x b' u up' v
  | _, _ => []
  end.

Fixpoint lcs_rows (a b : string) (row : list nat) : list nat :=
  match a with
  | EmptyString => row
  | String x a' => lcs_rows a' b (lcs_row x b 0 row 0)
  end.

Definition lcs (a b : string) : nat :=
  last (lcs_rows a b (repeat 0 (String.length b))) 0.

Definition indel_ratio (a b : string) : Q :=
  let lensum := String.length a + String.length b in
  if Nat.eqb lensum 0 then 100%Q
  else (inject_Z (Z.of_nat (200 * lcs a b)) / inject_Z (Z.of_nat lensum))%Q.

(* ------------------------------------------------------------------ *)
(** ** Concrete folders *)

(** Scenario A of the spec. *)
Definition scenario_a_videos : list string :=
  ["Show.S01E01.mkv"; "Show.S01E02.mkv"; "Unrelated.avi"].
Definition scenario_a_assets : list string := ["Show.S01E01.nfo"].

(** A season folder with a bare title and numbered episodes. *)
Definition episodes_videos : list string :=
  ["Show.S01E01.mkv"; "Show.S01E02.mkv"; "Show.mkv"; "Show1.mkv"].

(** Two trips filmed with the same camera. *)
Definition gopro_videos : list string :=
  ["Alpine.Trek.GoPro.mkv"; "Alpine.Trek.GoPro2.mkv";
   "Desert.Run.GoPro.mkv"; "Desert.Run.GoPro2.mkv"].

(** Two titles, each with decorated copies, and a poster. *)
Definition vacation_videos : list string :=
  ["AAcation20y0.mkv"; "HolidaqzTrwp.2019.mkv"; "Holiday.Trip.2019.mkv";
   "Vacation2020.mkv"; "Vacation202A.mkv"; "Vacation2A20.mkv"].
Definition vacation_assets : list string := ["Holiday.Trip.2019.mkv.jpg"].

(** A filesystem whose folders, given by resolved paths, each hold one
    video, where one report cannot be written. *)
Definition two_folder_fs (failing_report : string) : FileSystem :=
  {| fs_expanduser := fun arg => Ok arg;
     fs_resolve := fun folder => Ok folder;
     fs_exists := fun _ => Ok true;
     fs_is_dir := fun _ => Ok true;
     fs_iterdir := fun folder => Ok [((base_name folder ++ ".mkv")%string, true)];
     fs_write_ok := fun path => negb (String.eqb path failing_report) |}.

(** ** Report summary lines *)

(** [considered_files = sorted(set(...), key=lambda p: p.name)] *)
Definition considered_files (clusters : list FinalCluster) (singletons : list string)
  : list string :=
  sort_names (set_of (flat_map fc_members clusters ++ singletons)).

(** [dismissed_cores = [c for c in all_cores if c not in kept_core_set]] *)
Definition dismissed_cores (clusters : list FinalCluster) (all_cores : list string)
  : list string :=
  filter (fun c => negb (mem c (map core_guess clusters))) all_cores.

(* ================================================================== *)
(** * Properties *)

(** ** Containers *)

Lemma mem_true_iff (x : string) (l : list string) : mem x l = true <-> In x l.
Proof.
  unfold mem. rewrite existsb_exists. split.
  - intros [y [Hy Heq]]. apply String.eqb_eq in Heq. now subst.
  - intros H. exists x. split; [exact H | apply String.eqb_refl].
Qed.

Lemma mem_false_iff (x : string) (l : list string) : mem x l = false <-> ~ In x l.
Proof.
  rewrite <- mem_true_iff. destruct (mem x l); split; congruence.
Qed.

Section SortFacts.
Context {A : Type} (le : A -> A -> bool).

Lemma insert_by_perm (x : A) (l : list A) : Permutation (insert_by le x l) (x :: l).
Proof.
  induction l as [|y l IH]; simpl; [constructor; constructor|].
  destruct (le x y); [reflexivity|].
  rewrite IH. constructor.
Qed.

Lemma sort_by_perm (l : list A) : Permutation (sort_by le l) l.
Proof.
  induction l as [|x l IH]; simpl; [constructor|].
  rewrite insert_by_perm. now constructor.
Qed.

Lemma in_sort_by (x : A) (l : list A) : In x (sort_by le l) <-> In x l.
Proof. split; apply Permutation_in; [|symmetry]; apply sort_by_perm. Qed.
End SortFacts.

Lemma set_of_loop_spec (l acc : list string) :
  NoDup acc ->
  NoDup (fold_left (fun s x => set_add x s) l acc) /\
  (forall x, In x (fold_left (fun s x => set_add x s) l acc) <-> In x acc \/ In x l).
Proof.
  revert acc. induction l as [|y l IH]; intros acc Hnd; simpl.
  - split; [exact Hnd|]. intros x; tauto.
  - assert (Hnd' : NoDup (set_add y acc)).
    { unfold set_add. destruct (mem y acc) eqn:Hm; [exact Hnd|].
      apply mem_false_iff in Hm. apply NoDup_app; auto using NoDup_cons, NoDup_nil.
      intros z Hz [<-|[]]. contradiction. }
    destruct (IH _ Hnd') as [H1 H2]. split; [exact H1|].
    intros x. rewrite H2. unfold set_add.
    destruct (mem y acc) eqn:Hm.
    + apply mem_true_iff in Hm. split; [tauto|]. intros [H|[->|H]]; tauto.
    + rewrite in_app_iff. simpl. tauto.
Qed.

Lemma set_of_NoDup (l : list string) : NoDup (set_of l).
Proof. apply (set_of_loop_spec l []), NoDup_nil. Qed.

Lemma in_set_of (x : string) (l : list string) : In x (set_of l) <-> In x l.
Proof.
  destruct (set_of_loop_spec l [] (NoDup_nil _)) as [_ H].
  unfold set_of. rewrite H. simpl. tauto.
Qed.

Lemma NoDup_sort_by {A} (le : A -> A -> bool) (l : list A) :
  NoDup l -> NoDup (sort_by le l).
Proof.
  intros H. eapply Permutation_NoDup; [symmetry; apply sort_by_perm|exact H].
Qed.

(** A [set] built from a duplicate-free list is that list. *)
Lemma set_of_NoDup_id (l : list string) :
  NoDup l -> set_of l = l.
Proof.
  unfold set_of. intros H.
  enough (Hg : forall acc, NoDup (acc ++ l) ->
                fold_left (fun s x => set_add x s) l acc = acc ++ l)
    by (apply (Hg []); exact H).
  clear H. induction l as [|y l IH]; intros acc Hnd; simpl.
  - now rewrite app_nil_r.
  - unfold set_add at 2.
    assert (Hy : mem y acc = false).
    { apply mem_false_iff. intros Hin.
      apply (NoDup_remove_2 _ _ _ Hnd). apply in_app_iff. now left. }
    rewrite Hy. rewrite IH; [now rewrite <- app_assoc|].
    now rewrite <- app_assoc.
Qed.

(** ** Final-cluster construction never raises *)

Lemma tier_cores_ok (cs : list string) :
  cs <> [] -> exists tiers, tier_cores cs = Ok tiers.
Proof.
  intros Hne. destruct cs as [|c cs]; [congruence|].
  unfold tier_cores. cbn [py_div List.length Nat.eqb bind]. eauto.
Qed.

Lemma build_final_clusters_no_raise (ic : list Cluster) (v a : list string) :
  exists r, build_final_clusters ic v a = Ok r.
Proof.
  unfold build_final_clusters.
  destruct (core_candidates_of ic) as [|c cs] eqn:E; [eauto|].
  destruct (tier_cores_ok (c :: cs)) as [[n s] Ht]; [discriminate|].
  rewrite Ht. cbn [bind]. eauto.
Qed.

(** ** Stems *)

Lemma stem_nonempty (name : string) : name <> "" -> stem name <> "".
Proof.
  intros Hne. unfold stem.
  destruct (rfind_dot name) as [i|]; [|exact Hne].
  destruct ((0 <? i) && (i <? String.length name - 1)) eqn:Hb; [|exact Hne].
  apply andb_true_iff in Hb as [Hi _]. apply Nat.ltb_lt in Hi.
  destruct name as [|c s]; [congruence|].
  destruct i as [|i]; [lia|]. unfold slice. simpl. discriminate.
Qed.

(** ** Tiering *)

(** [len(c) >= 0.5 * avg_len] with [avg_len = total / n], for [n > 0]. *)
Lemma half_avg_le (total n l : nat) : 0 < n ->
  Qle_bool ((1 # 2) * (inject_Z (Z.of_nat total) / inject_Z (Z.of_nat n)))
           (inject_Z (Z.of_nat l))
  = Nat.leb total (2 * n * l).
Proof.
  intros Hn. destruct n as [|n]; [lia|].
  apply eq_true_iff_eq. rewrite Qle_bool_iff, Nat.leb_le.
  rewrite Nat2Z.inj_succ.
  unfold Qle, Qmult, Qdiv, Qinv, inject_Z. simpl.
  destruct (Z.succ (Z.of_nat n)) eqn:E; try lia.
  simpl.
  assert (Hm : forall z : Z,
             match z with Z0 => Z0 | Z.pos y => Z.pos y | Z.neg y => Z.neg y end = z)
    by (destruct z; reflexivity).
  rewrite Z.mul_1_r, Hm, Z.mul_1_r.
  change (Z.pos p~0) with (2 * Z.pos p)%Z. rewrite <- E. nia.
Qed.

Lemma core_candidates_NoDup (ic : list Cluster) : NoDup (core_candidates_of ic).
Proof. unfold core_candidates_of. apply NoDup_sort_by, set_of_NoDup. Qed.

Lemma tier_cores_spec (cs : list string) :
  cs <> [] -> NoDup cs ->
  exists normal_cores short_cores,
    tier_cores cs = Ok (normal_cores, short_cores) /\
    NoDup (normal_cores ++ short_cores) /\
    (forall c, In c normal_cores <->
               In c cs /\ sum_lengths cs <= 2 * List.length cs * String.length c) /\
    (forall c, In c short_cores <->
               In c cs /\ 2 * List.length cs * String.length c < sum_lengths cs).
Proof.
  intros Hne Hnd.
  assert (Hpos : 0 < List.length cs) by (destruct cs; [congruence|simpl; lia]).
  unfold tier_cores, py_div.
  replace (Nat.eqb (List.length cs) 0) with false
    by (symmetry; apply Nat.eqb_neq; lia).
  cbn [bind]. unfold tier_with, sort_names, sort_len_desc.
  eexists _, _. split; [reflexivity|].
  assert (Hp : forall c,
             Qle_bool ((1 # 2) * (inject_Z (Z.of_nat (sum_lengths cs)) /
                                  inject_Z (Z.of_nat (List.length cs))))
                      (inject_Z (Z.of_nat (String.length c)))
             = Nat.leb (sum_lengths cs) (2 * List.length cs * String.length c))
    by (intros c; apply half_avg_le; exact Hpos).
  split; [|split].
  - apply NoDup_app.
    + apply NoDup_sort_by, NoDup_filter, Hnd.
    + apply NoDup_sort_by, NoDup_filter, Hnd.
    + intros c H1 H2. apply in_sort_by, filter_In in H1, H2.
      destruct H1 as [_ H1], H2 as [_ H2]. rewrite Hp in H1, H2.
      rewrite H1 in H2. discriminate.
  - intros c. rewrite in_sort_by, filter_In, Hp, Nat.leb_le. tauto.
  - intros c. rewrite in_sort_by, filter_In, Hp, negb_true_iff, Nat.leb_gt. tauto.
Qed.

(** ** Final assignment *)

Definition has_best (ordered_cores : list string) (f : string) : bool :=
  match best_core ordered_cores f with Some _ => true | None => false end.

Lemma max_by_key_in (o : list string) (l : list string) (x : string) :
  In (max_by_key o x l) (x :: l).
Proof.
  unfold max_by_key. revert x. induction l as [|y l IH]; intros x; simpl; [now left|].
  destruct (key_lt o x y).
  - destruct (IH y) as [H|H]; [right; left; exact H | right; right; exact H].
  - destruct (IH x) as [H|H]; [left; exact H | right; right; exact H].
Qed.

(** The chosen core is at least as long as every candidate seen. *)
Lemma max_by_key_longest (o : list string) (l : list string) (x : string) :
  forall y, In y (x :: l) -> String.length y <= String.length (max_by_key o x l).
Proof.
  unfold max_by_key. revert x. induction l as [|z l IH]; intros x y Hy; simpl in *.
  - destruct Hy as [<-|[]]. lia.
  - destruct (key_lt o x z) eqn:Hk.
    + assert (Hxz : String.length x <= String.length z).
      { unfold key_lt in Hk. apply orb_true_iff in Hk as [Hk|Hk].
        - apply Nat.ltb_lt in Hk. lia.
        - apply andb_true_iff in Hk as [Hk _]. apply Nat.eqb_eq in Hk. lia. }
      destruct Hy as [<-|[<-|Hy]].
      * etransitivity; [exact Hxz|]. apply IH. now left.
      * apply IH. now left.
      * apply IH. now right.
    + destruct Hy as [<-|[<-|Hy]].
      * apply IH. now left.
      * assert (Hzx : String.length z <= String.length x).
        { unfold key_lt in Hk. apply orb_false_iff in Hk as [Hk1 _].
          apply Nat.ltb_ge in Hk1. exact Hk1. }
        etransitivity; [exact Hzx|]. apply IH. now left.
      * apply IH. now right.
Qed.

Lemma best_core_spec (o : list string) (f c : string) :
  best_core o f = Some c ->
  In c o /\ startswith (stem f) c = true /\
  (forall c', In c' o -> startswith (stem f) c' = true ->
              String.length c' <= String.length c).
Proof.
  unfold best_core.
  destruct (filter (fun core => startswith (stem f) core) o) as [|c0 cs] eqn:E;
    [discriminate|].
  intros H. injection H as <-.
  assert (Hin : forall y, In y (c0 :: cs) <-> In y o /\ startswith (stem f) y = true)
    by (intros y; rewrite <- E; apply filter_In).
  destruct (Hin (max_by_key o c0 cs)) as [Hm _].
  destruct (Hm (max_by_key_in o cs c0)) as [H1 H2].
  split; [exact H1|]. split; [exact H2|].
  intros c' Hc' Hp. apply max_by_key_longest, Hin. now split.
Qed.

Lemma ldict_append_keys (d : list (string * list string)) (k f : string) :
  map fst (ldict_append d k f) = map fst d.
Proof.
  induction d as [|[k' v] d IH]; simpl; [reflexivity|].
  destruct (String.eqb k k'); simpl; [reflexivity|]. now rewrite IH.
Qed.

Lemma ldict_append_perm (d : list (string * list string)) (k f : string) :
  In k (map fst d) ->
  Permutation (flat_map snd (ldict_append d k f)) (f :: flat_map snd d).
Proof.
  induction d as [|[k' v] d IH]; simpl; [intros []|]. intros Hk.
  destruct (String.eqb_spec k k') as [<-|Hne]; simpl.
  - rewrite <- app_assoc. simpl. apply Permutation_sym, Permutation_middle.
  - destruct Hk as [Hk|Hk]; [congruence|].
    rewrite (IH Hk). apply Permutation_sym, Permutation_middle.
Qed.

Lemma ldict_append_get (d : list (string * list string)) (k f k' x : string) :
  In x (ldict_get (ldict_append d k f) k') ->
  In x (ldict_get d k') \/ (x = f /\ k' = k).
Proof.
  induction d as [|[k0 v] d IH]; simpl; [tauto|].
  destruct (String.eqb_spec k k0) as [<-|Hne]; simpl.
  - destruct (String.eqb_spec k' k) as [->|Hne']; [|tauto].
    rewrite in_app_iff. simpl. intuition.
  - destruct (String.eqb k' k0); tauto.
Qed.

Lemma assign_loop_spec (o : list string) (l : list string) (d : list (string * list string)) :
  (forall c, In c o -> In c (map fst d)) ->
  let d' := fold_left (fun d f => match best_core o f with
                                  | None => d
                                  | Some c => ldict_append d c f
                                  end) l d in
  map fst d' = map fst d /\
  Permutation (flat_map snd d') (flat_map snd d ++ filter (has_best o) l) /\
  (forall k x, In x (ldict_get d' k) ->
               In x (ldict_get d k) \/ best_core o x = Some k).
Proof.
  revert d. induction l as [|f l IH]; intros d Hkeys; simpl.
  - rewrite app_nil_r. split; [reflexivity|]. split; [reflexivity|]. tauto.
  - destruct (best_core o f) as [c|] eqn:Hb.
    + assert (Hh : has_best o f = true) by (unfold has_best; now rewrite Hb).
      rewrite Hh.
      assert (Hc : In c (map fst d)) by (apply Hkeys, (best_core_spec o f c Hb)).
      assert (Hkeys' : forall c', In c' o -> In c' (map fst (ldict_append d c f)))
        by (intros c' Hc'; rewrite ldict_append_keys; auto).
      destruct (IH _ Hkeys') as [H1 [H2 H3]].
      split; [rewrite H1; apply ldict_append_keys|]. split.
      * rewrite H2, (ldict_append_perm d c f Hc). simpl.
        apply Permutation_middle.
      * intros k x Hx. destruct (H3 k x Hx) as [Hx'|Hx']; [|tauto].
        destruct (ldict_append_get d c f k x Hx') as [H|[-> ->]]; tauto.
    + assert (Hh : has_best o f = false) by (unfold has_best; now rewrite Hb).
      rewrite Hh. apply IH. exact Hkeys.
Qed.

Lemma flat_map_ext_in {A B} (f g : A -> list B) (l : list A) :
  (forall x, In x l -> f x = g x) -> flat_map f l = flat_map g l.
Proof.
  induction l as [|x l IH]; simpl; intros H; [reflexivity|].
  rewrite H by (now left). rewrite IH by (intros y Hy; apply H; now right).
  reflexivity.
Qed.

Lemma ldict_get_all (d : list (string * list string)) :
  NoDup (map fst d) -> flat_map (ldict_get d) (map fst d) = flat_map snd d.
Proof.
  induction d as [|[k v] d IH]; simpl; intros Hnd; [reflexivity|].
  inversion Hnd as [|? ? Hk Hnd']; subst.
  rewrite String.eqb_refl. f_equal. rewrite <- (IH Hnd').
  apply flat_map_ext_in. intros k' Hk'.
  destruct (String.eqb_spec k' k) as [->|]; [contradiction|reflexivity].
Qed.

Lemma make_final_clusters_loop (o : list string) (d : list (string * list string))
    (acc : list FinalCluster) :
  Permutation
    (flat_map fc_members
       (fold_left
          (fun acc core =>
             let ms := ldict_get d core in
             match ms with
             | [] => acc
             | _ => acc ++ [{| core_guess := core; fc_members := sort_names ms;
                               video_count := List.length (filter is_video ms) |}]
             end) o acc))
    (flat_map fc_members acc ++ flat_map (ldict_get d) o).
Proof.
  revert acc. induction o as [|c o IH]; intros acc; simpl.
  - now rewrite app_nil_r.
  - rewrite IH. destruct (ldict_get d c) as [|m ms] eqn:E; [reflexivity|].
    rewrite flat_map_app, <- app_assoc. simpl. rewrite app_nil_r.
    apply Permutation_app_head.
    exact (Permutation_app_tail _ (sort_by_perm String.leb (m :: ms))).
Qed.

Lemma filter_negb_perm {A} (p : A -> bool) (l : list A) :
  Permutation (filter p l ++ filter (fun x => negb (p x)) l) l.
Proof.
  induction l as [|x l IH]; simpl; [constructor|].
  destruct (p x); simpl.
  - now constructor.
  - rewrite <- Permutation_middle. now constructor.
Qed.

Lemma final_partition_perm (o all : list string) :
  NoDup o ->
  Permutation
    (flat_map fc_members (make_final_clusters o (assign_files o all)) ++
     sort_names (filter (fun f => negb (mem f (flat_map snd (assign_files o all)))) all))
    all.
Proof.
  intros Hnd.
  assert (Hkeys : forall c, In c o -> In c (map fst (ldict_init o))).
  { intros c Hc. unfold ldict_init. rewrite map_map. simpl. rewrite map_id.
    now apply in_set_of. }
  destruct (assign_loop_spec o all (ldict_init o) Hkeys) as [H1 [H2 _]].
  fold (assign_files o all) in H1, H2.
  set (d := assign_files o all) in *.
  assert (Hinit : flat_map snd (ldict_init o) = []).
  { unfold ldict_init. induction (set_of o); simpl; auto. }
  rewrite Hinit in H2. simpl in H2.
  assert (Hk : map fst d = o).
  { rewrite H1. unfold ldict_init. rewrite map_map. simpl. rewrite map_id.
    now apply set_of_NoDup_id. }
  assert (Hfc : Permutation (flat_map fc_members (make_final_clusters o d))
                            (filter (has_best o) all)).
  { unfold make_final_clusters. rewrite make_final_clusters_loop. simpl.
    rewrite <- Hk at 1. rewrite ldict_get_all by (now rewrite Hk). exact H2. }
  assert (Hs : filter (fun f => negb (mem f (flat_map snd d))) all =
               filter (fun f => negb (has_best o f)) all).
  { apply filter_ext_in. intros x Hx. f_equal.
    apply eq_true_iff_eq. rewrite mem_true_iff.
    split; intros H.
    - apply (Permutation_in _ H2), filter_In in H. tauto.
    - apply (Permutation_in _ (Permutation_sym H2)), filter_In. tauto. }
  rewrite Hs, Hfc. unfold sort_names. rewrite sort_by_perm.
  apply filter_negb_perm.
Qed.

(** The candidate files of [_build_final_clusters] are the name-sorted
    videos and assets. *)
Lemma build_final_clusters_perm (ic : list Cluster) (v a : list string) :
  match build_final_clusters ic v a with
  | Ok (final_clusters, final_singletons, _, _, _) =>
      Permutation (flat_map fc_members final_clusters ++ final_singletons) (v ++ a)
  | Raise _ => False
  end.
Proof.
  unfold build_final_clusters.
  destruct (core_candidates_of ic) as [|c cs] eqn:E.
  - simpl. unfold sort_names. apply sort_by_perm.
  - destruct (tier_cores_spec (c :: cs)) as [n [s [Ht [Hnd _]]]];
      [discriminate| rewrite <- E; apply core_candidates_NoDup|].
    rewrite Ht. cbn [bind].
    rewrite (final_partition_perm (n ++ s) _ Hnd).
    unfold sort_names. apply sort_by_perm.
Qed.

Lemma tier_cores_members (cs normal_cores short_cores : list string) :
  tier_cores cs = Ok (normal_cores, short_cores) ->
  forall c, In c (normal_cores ++ short_cores) <-> In c cs.
Proof.
  unfold tier_cores, py_div. destruct (Nat.eqb (List.length cs) 0); [discriminate|].
  cbn [bind]. unfold tier_with, sort_names, sort_len_desc.
  intros H. injection H as <- <-. intros c.
  rewrite in_app_iff, !in_sort_by, !filter_In.
  destruct (Qle_bool _ _); simpl; tauto.
Qed.

Lemma make_final_clusters_in (o : list string) (d : list (string * list string))
    (fc : FinalCluster) :
  In fc (make_final_clusters o d) ->
  In (core_guess fc) o /\
  (forall f, In f (fc_members fc) -> In f (ldict_get d (core_guess fc))).
Proof.
  unfold make_final_clusters.
  enough (H : forall acc,
             In fc (fold_left
                      (fun acc core =>
                         let ms := ldict_get d core in
                         match ms with
                         | [] => acc
                         | _ => acc ++ [{| core_guess := core; fc_members := sort_names ms;
                                           video_count := List.length (filter is_video ms) |}]
                         end) o acc) ->
             In fc acc \/
             (In (core_guess fc) o /\
              forall f, In f (fc_members fc) -> In f (ldict_get d (core_guess fc))))
    by (intros Hin; destruct (H [] Hin) as [[]|H']; exact H').
  induction o as [|c o IH]; intros acc Hin; simpl in Hin; [now left|].
  destruct (IH _ Hin) as [Hacc|[H1 H2]]; [|right; split; [now right|exact H2]].
  destruct (ldict_get d c) as [|m ms] eqn:E; [now left|].
  apply in_app_iff in Hacc as [Hacc|[<-|[]]]; [now left|].
  right. simpl. split; [now left|].
  intros f Hf. rewrite E. exact (proj1 (in_sort_by String.leb f (m :: ms)) Hf).
Qed.

Lemma assign_files_best (o all : list string) (k f : string) :
  In f (ldict_get (assign_files o all) k) -> best_core o f = Some k.
Proof.
  assert (Hkeys : forall c, In c o -> In c (map fst (ldict_init o))).
  { intros c Hc. unfold ldict_init. rewrite map_map. simpl. rewrite map_id.
    now apply in_set_of. }
  destruct (assign_loop_spec o all (ldict_init o) Hkeys) as [_ [_ H3]].
  intros Hin. destruct (H3 k f Hin) as [H|H]; [|exact H].
  exfalso. revert H. unfold ldict_init. induction (set_of o) as [|x l IH]; simpl; [tauto|].
  destruct (String.eqb k x); simpl; tauto.
Qed.

(** ** Shared-substring mining *)

Lemma prefix_substring0 (s : string) (m : nat) :
  m <= String.length s -> String.prefix (String.substring 0 m s) s = true.
Proof.
  revert m. induction s as [|c s IH]; intros m Hm; simpl in *.
  - destruct m; [reflexivity|lia].
  - destruct m as [|m]; [reflexivity|]. simpl.
    destruct (ascii_dec c c) as [_|Hne]; [apply IH; lia|congruence].
Qed.

Lemma contains_of_prefix (p s : string) :
  String.prefix p s = true -> contains p s = true.
Proof. intros H. destruct s; cbn [contains]; rewrite H; reflexivity. Qed.

Lemma contains_cons (p s : string) (c : ascii) :
  contains p s = true -> contains p (String c s) = true.
Proof. intros H. cbn [contains]. rewrite H. apply orb_true_r. Qed.

Lemma contains_substring (s : string) (i m : nat) :
  i + m <= String.length s -> contains (String.substring i m s) s = true.
Proof.
  revert i. induction s as [|c s IH]; intros i Hi.
  - simpl in Hi. assert (i = 0) by lia. assert (m = 0) by lia. subst. reflexivity.
  - destruct i as [|i].
    + apply contains_of_prefix, prefix_substring0. simpl in Hi |- *. lia.
    + change (String.substring (S i) m (String c s)) with (String.substring i m s).
      apply contains_cons, IH. simpl in Hi. lia.
Qed.

Lemma substrings_ge2_contained (a s : string) :
  In s (substrings_ge2 a) -> contains s a = true.
Proof.
  unfold substrings_ge2. rewrite in_flat_map. intros [i [Hi Hs]].
  apply in_map_iff in Hs as [j [<- Hj]]. apply in_seq in Hi, Hj.
  unfold slice. apply contains_substring. lia.
Qed.

Lemma intersect_loop_spec (base : string) (cur others : list string) (s : string) :
  In s (intersect_loop base cur others) ->
  In s cur /\ forall o, In o others -> contains s o = true.
Proof.
  revert cur. induction others as [|o others IH]; intros cur Hin; simpl in Hin.
  - split; [exact Hin|]. intros o [].
  - destruct (filter (fun s => mem s (common_substrings base o)) cur) as [|x xs] eqn:E;
      [contradiction|].
    apply IH in Hin as [Hin Hall]. rewrite <- E in Hin.
    apply filter_In in Hin as [Hcur Hm].
    split; [exact Hcur|]. intros o' [<-|Ho']; [|now apply Hall].
    apply mem_true_iff in Hm. unfold common_substrings in Hm.
    apply in_set_of, filter_In in Hm. tauto.
Qed.

Lemma sdict_set_in (d : list (string * string)) (k v : string) (kv : string * string) :
  In kv (sdict_set d k v) -> In kv d \/ snd kv = v.
Proof.
  induction d as [|[k' v'] d IH]; simpl.
  - intros [<-|[]]. now right.
  - destruct (String.eqb k k'); simpl.
    + intros [<-|H]; [now right|now left; right].
    + intros [<-|H]; [now left; left|]. destruct (IH H); [left; now right|now right].
Qed.

Lemma tag_map_of_spec (raw : list string) (kv : string * string) :
  In kv (tag_map_of raw) ->
  In (snd kv) raw /\ 3 <= String.length (snd kv) /\ normalize_tag (snd kv) <> "".
Proof.
  unfold tag_map_of.
  enough (H : forall l acc,
             (forall x, In x l -> In x raw) ->
             (forall kv, In kv acc ->
                In (snd kv) raw /\ 3 <= String.length (snd kv) /\
                normalize_tag (snd kv) <> "") ->
             forall kv, In kv (fold_left
               (fun tag_map sub =>
                  if String.length sub <? 3 then tag_map
                  else
                    let norm := normalize_tag sub in
                    if String.eqb norm "" then tag_map
                    else match sdict_get tag_map norm with
                         | None => sdict_set tag_map norm sub
                         | Some prev =>
                             if String.length prev <? String.length sub
                             then sdict_set tag_map norm sub else tag_map
                         end) l acc) ->
             In (snd kv) raw /\ 3 <= String.length (snd kv) /\
             normalize_tag (snd kv) <> "")
    by (apply H; [tauto|intros ? []]).
  induction l as [|sub l IH]; intros acc Hl Hacc kv' Hin; simpl in Hin; [now apply Hacc|].
  apply IH in Hin; [exact Hin| intros x Hx; apply Hl; now right|].
  destruct (String.length sub <? 3) eqn:Hlen; [exact Hacc|].
  destruct (String.eqb (normalize_tag sub) "") eqn:Hn; [exact Hacc|].
  assert (Hnew : forall kv0, In kv0 (sdict_set acc (normalize_tag sub) sub) ->
                 In (snd kv0) raw /\ 3 <= String.length (snd kv0) /\
                 normalize_tag (snd kv0) <> "").
  { intros kv0 Hkv. destruct (sdict_set_in _ _ _ _ Hkv) as [H| Heq]; [now apply Hacc|rewrite Heq].
    split; [apply Hl; now left|]. split; [apply Nat.ltb_ge; exact Hlen|].
    apply String.eqb_neq. exact Hn. }
  destruct (sdict_get acc (normalize_tag sub)) as [prev|];
    [destruct (String.length prev <? String.length sub)|]; auto.
Qed.

(* ================================================================== *)
Lemma tag_infos_spec (normal_cores : list string) (l : list string)
  (acc : list (string * nat)) (p : string * nat) :
  In p (fold_left (fun acc sub =>
                     let norm := normalize_tag sub in
                     if String.eqb norm "" then acc
                     else acc ++ [(sub, coverage normal_cores norm)]) l acc) ->
  In p acc \/
  (In (fst p) l /\ snd p = coverage normal_cores (normalize_tag (fst p))).
Proof.
  revert acc. induction l as [|sub l IH]; intros acc Hin; simpl in Hin; [now left|].
  destruct (IH _ Hin) as [Hacc|[Hl Hc]]; [|right; split; [now right|exact Hc]].
  destruct (String.eqb (normalize_tag sub) ""); [now left|].
  apply in_app_or in Hacc as [Hacc|[<-|[]]]; [now left|].
  right. split; [now left|reflexivity].
Qed.

Lemma dict_get_set_true (d : list (string * bool)) (k k' : string) :
  dict_get (dict_set d k true) k' = true <-> k' = k \/ dict_get d k' = true.
Proof.
  induction d as [|[k0 v0] d IH]; simpl.
  - destruct (String.eqb_spec k' k); intuition congruence.
  - destruct (String.eqb_spec k k0) as [->|Hne]; simpl.
    + destruct (String.eqb_spec k' k0); intuition congruence.
    + destruct (String.eqb_spec k' k0) as [->|Hne']; [intuition congruence|].
      rewrite IH. tauto.
Qed.

Lemma meets_mono (ratio : string -> string -> Q) (t1 t2 : Z) (a b : string) :
  (t1 <= t2)%Z -> meets ratio t2 a b = true -> meets ratio t1 a b = true.
Proof.
  unfold meets. rewrite !Qle_bool_iff. intros Ht H.
  rewrite Zle_Qle in Ht. eapply Qle_trans; [exact Ht|exact H].
Qed.

(** The relation between a scan at a lower threshold (members [m1],
    ledger [av1]) and one at a higher threshold ([m2], [av2]). *)
Definition scan_below (m1 : list string) (av1 : list (string * bool))
    (m2 : list string) (av2 : list (string * bool)) : Prop :=
  incl m2 m1 /\
  forall k, dict_get av1 k = true -> dict_get av2 k = true \/ In k m1.

Lemma scan_below_add_low m1 av1 m2 av2 o :
  scan_below m1 av1 m2 av2 -> scan_below (m1 ++ [o]) (dict_set av1 o true) m2 av2.
Proof.
  intros [Hm Hk]. split.
  - intros x Hx. apply in_or_app. left. now apply Hm.
  - intros k Hg. apply dict_get_set_true in Hg as [->|Hg].
    + right. apply in_or_app. right. now left.
    + destruct (Hk k Hg) as [H|H]; [now left|right; apply in_or_app; now left].
Qed.

Lemma scan_below_add_high m1 av1 m2 av2 o :
  scan_below m1 av1 m2 av2 -> In o m1 ->
  scan_below m1 av1 (m2 ++ [o]) (dict_set av2 o true).
Proof.
  intros [Hm Hk] Ho. split.
  - intros x Hx. apply in_app_or in Hx as [Hx|[<-|[]]]; [now apply Hm|exact Ho].
  - intros k Hg. destruct (Hk k Hg) as [H|H]; [left|now right].
    apply dict_get_set_true. now right.
Qed.

Lemma scan_below_add_both m1 av1 m2 av2 o :
  scan_below m1 av1 m2 av2 ->
  scan_below (m1 ++ [o]) (dict_set av1 o true) (m2 ++ [o]) (dict_set av2 o true).
Proof.
  intros H. apply scan_below_add_high; [now apply scan_below_add_low|].
  apply in_or_app. right. now left.
Qed.

(** One element of either scan: the higher threshold skips it when the
    lower one does not add it, or both add it. *)
Ltac scan_below_case ratio t1 t2 seed_name o Ht Hb IH :=
  destruct (dict_get _ o) eqn:G2 at 1; destruct (dict_get _ o) eqn:G1 at 1;
  destruct (meets ratio t2 seed_name o) eqn:M2;
  destruct (meets ratio t1 seed_name o) eqn:M1;
  apply IH;
  first
    [ exact Hb
    | now apply scan_below_add_low
    | now apply scan_below_add_both
    | exfalso; rewrite (meets_mono ratio t1 t2 _ _ Ht M2) in M1; discriminate
    | apply scan_below_add_high; [exact Hb|];
      destruct (proj2 Hb o G1) as [H|H]; [congruence|exact H] ].

Lemma scan_videos_below (ratio : string -> string -> Q) (t1 t2 : Z)
    (seed_name : string) (others : list string) m1 av1 m2 av2 :
  (t1 <= t2)%Z -> scan_below m1 av1 m2 av2 ->
  incl (fst (scan_videos ratio t2 seed_name others m2 av2))
       (fst (scan_videos ratio t1 seed_name others m1 av1)).
Proof.
  intros Ht. revert m1 av1 m2 av2.
  induction others as [|o others IH]; intros m1 av1 m2 av2 Hb; simpl; [apply Hb|].
  destruct (String.eqb o seed_name); [now apply IH|].
  scan_below_case ratio t1 t2 seed_name o Ht Hb IH.
Qed.

Lemma scan_assets_below (ratio : string -> string -> Q) (t1 t2 : Z)
    (seed_name : string) (assets : list string) m1 av1 m2 av2 :
  (t1 <= t2)%Z -> scan_below m1 av1 m2 av2 ->
  incl (fst (scan_assets ratio t2 seed_name assets m2 av2))
       (fst (scan_assets ratio t1 seed_name assets m1 av1)).
Proof.
  intros Ht. revert m1 av1 m2 av2.
  induction assets as [|o assets IH]; intros m1 av1 m2 av2 Hb; simpl; [apply Hb|].
  scan_below_case ratio t1 t2 seed_name o Ht Hb IH.
Qed.


(** ** Strings as appended pieces *)

Lemma str_append_nil (s : string) : (s ++ "")%string = s.
Proof. induction s as [|c s IH]; simpl; congruence. Qed.

Lemma str_append_assoc (a b c : string) : ((a ++ b) ++ c)%string = (a ++ (b ++ c))%string.
Proof. induction a as [|x a IH]; simpl; congruence. Qed.

Lemma str_length_append (a b : string) :
  String.length (a ++ b) = String.length a + String.length b.
Proof. induction a as [|x a IH]; simpl; congruence. Qed.

Lemma prefix_iff (p s : string) : String.prefix p s = true <-> exists t, s = (p ++ t)%string.
Proof.
  revert s. induction p as [|a p IH]; intros s; destruct s as [|b s]; simpl.
  - split; [now exists ""|reflexivity].
  - split; [now exists (String b s)|reflexivity].
  - split; [discriminate|intros [t Ht]; discriminate].
  - destruct (ascii_dec a b) as [<-|Hne].
    + rewrite IH. split; intros [t Ht]; exists t; [now rewrite Ht|now injection Ht].
    + split; [discriminate|intros [t Ht]; injection Ht; congruence].
Qed.

Lemma append_eq_nil (p t : string) : (p ++ t)%string = "" -> p = "" /\ t = "".
Proof. destruct p; simpl; [tauto|discriminate]. Qed.

Lemma substring0_prefix (n : nat) (q : string) :
  exists t, q = (String.substring 0 n q ++ t)%string.
Proof.
  revert n. induction q as [|c q IH]; intros n; destruct n as [|n]; simpl.
  - now exists "". - now exists "". - now exists (String c q).
  - destruct (IH n) as [t Ht]. exists t. now rewrite <- Ht.
Qed.

Lemma substring0_length (n : nat) (q : string) :
  n <= String.length q -> String.length (String.substring 0 n q) = n.
Proof.
  revert n. induction q as [|c q IH]; intros n Hn; destruct n as [|n]; simpl in *;
    try lia. rewrite IH; lia.
Qed.

Lemma substring0_app (n : nat) (p t : string) :
  String.length p <= n ->
  String.substring 0 n (p ++ t) = (p ++ String.substring 0 (n - String.length p) t)%string.
Proof.
  revert n. induction p as [|c p IH]; intros n Hn; simpl.
  - now rewrite Nat.sub_0_r.
  - destruct n as [|n]; simpl in Hn; [lia|]. simpl. now rewrite IH by lia.
Qed.

(** The [while] loop of [_longest_common_prefix] trims [prefix] to its
    longest prefix that starts [s]. *)
Lemma trim_prefix_spec (fuel : nat) (prefix s : string) :
  String.length prefix <= fuel ->
  let r := trim_prefix fuel prefix s in
  (exists t, prefix = (r ++ t)%string) /\ (exists t, s = (r ++ t)%string) /\
  (forall p, (exists t, prefix = (p ++ t)%string) -> (exists t, s = (p ++ t)%string) ->
             exists t, r = (p ++ t)%string).
Proof.
  revert prefix. induction fuel as [|fuel IH]; intros prefix Hlen; simpl.
  - destruct prefix; simpl in Hlen; [|lia].
    split; [now exists ""|]. split; [now exists s|].
    intros p [t Ht] _. symmetry in Ht. apply append_eq_nil in Ht as [-> ->]. now exists "".
  - unfold startswith.
    destruct (String.prefix prefix s) eqn:Hs; destruct (String.eqb prefix "") eqn:He;
      simpl.
    1-3: split; [exists ""; now rewrite str_append_nil|];
         split; [|intros p Hp _; exact Hp].
    1,2: now apply prefix_iff.
    1: apply String.eqb_eq in He; subst; now exists s.
    set (q := slice prefix 0 (String.length prefix - 1)).
    assert (Hq : q = String.substring 0 (String.length prefix - 1) prefix)
      by (unfold q, slice; now rewrite Nat.sub_0_r).
    assert (Hql : String.length q = String.length prefix - 1)
      by (rewrite Hq; apply substring0_length; lia).
    destruct (IH q ltac:(lia)) as [[t1 H1] [H2 H3]].
    split; [|split; [exact H2|]].
    + destruct (substring0_prefix (String.length prefix - 1) prefix) as [t0 H0].
      rewrite <- Hq in H0. exists (t1 ++ t0)%string.
      rewrite H0, H1 at 1. apply str_append_assoc.
    + intros p [t Ht] Hps. apply H3; [|exact Hps].
      destruct t as [|c t].
      * rewrite str_append_nil in Ht. subst p.
        apply prefix_iff in Hps. congruence.
      * assert (Hl : String.length p <= String.length prefix - 1)
          by (rewrite Ht, str_length_append; simpl; lia).
        rewrite Hq, Ht, substring0_app by (rewrite Ht in Hl; exact Hl).
        eexists. reflexivity.
Qed.

Lemma lcp_loop_spec (rest : list string) (prefix : string) :
  let r := lcp_loop prefix rest in
  (exists t, prefix = (r ++ t)%string) /\
  (forall s, In s rest -> exists t, s = (r ++ t)%string) /\
  (forall p, (exists t, prefix = (p ++ t)%string) ->
             (forall s, In s rest -> exists t, s = (p ++ t)%string) ->
             exists t, r = (p ++ t)%string).
Proof.
  revert prefix. induction rest as [|s rest IH]; intros prefix; simpl.
  - split; [exists ""; now rewrite str_append_nil|]. split; [intros _ []|].
    intros p Hp _. exact Hp.
  - destruct (String.eqb prefix "") eqn:He.
    + apply String.eqb_eq in He. subst prefix.
      split; [now exists ""|]. split; [intros s' _; now exists s'|].
      intros p [t Ht] _. symmetry in Ht. apply append_eq_nil in Ht as [-> ->].
      now exists "".
    + destruct (trim_prefix_spec (String.length prefix) prefix s (le_n _))
        as [[t1 H1] [H2 H3]].
      set (q := trim_prefix (String.length prefix) prefix s) in *.
      destruct (IH q) as [[t4 H4] [H5 H6]].
      split; [|split].
      * exists (t4 ++ t1)%string. rewrite H1, H4 at 1. apply str_append_assoc.
      * intros s' [<-|Hs'].
        -- destruct H2 as [t2 H2]. exists (t4 ++ t2)%string.
           rewrite H2, H4 at 1. apply str_append_assoc.
        -- now apply H5.
      * intros p Hp Hall. apply H6; [|intros s' Hs'; apply Hall; now right].
        apply H3; [exact Hp|apply Hall; now left].
Qed.

(** ** Separator-free tokens *)

Lemma list_ascii_append (a b : string) :
  list_ascii_of_string (a ++ b) = list_ascii_of_string a ++ list_ascii_of_string b.
Proof. induction a as [|c a IH]; simpl; congruence. Qed.

Lemma split_tokens_loop_spec (s cur : string) (tokens : list string) :
  cur = "" \/ (cur <> "" /\ forall c, In c (list_ascii_of_string cur) -> is_separator c = false) ->
  (forall t, In t tokens -> t <> "" /\
             forall c, In c (list_ascii_of_string t) -> is_separator c = false) ->
  let r := split_tokens_loop s cur tokens in
  (forall t, In t r -> t <> "" /\
             forall c, In c (list_ascii_of_string t) -> is_separator c = false) /\
  flat_map list_ascii_of_string r =
    flat_map list_ascii_of_string tokens ++ list_ascii_of_string cur ++
    filter (fun c => negb (is_separator c)) (list_ascii_of_string s).
Proof.
  revert cur tokens. induction s as [|ch s IH]; intros cur tokens Hcur Htoks; simpl.
  - destruct (String.eqb_spec cur "") as [->|Hne].
    + split; [exact Htoks|]. simpl. now rewrite !app_nil_r.
    + split.
      * intros t Ht. apply in_app_or in Ht as [Ht|[<-|[]]]; [now apply Htoks|].
        destruct Hcur as [|[_ H]]; [contradiction|]. now split.
      * rewrite flat_map_app. simpl. now rewrite !app_nil_r.
  - destruct (is_separator ch) eqn:Hsep; simpl.
    + destruct (String.eqb_spec cur "") as [->|Hne].
      * destruct (IH "" tokens (or_introl eq_refl) Htoks) as [H1 H2].
        split; [exact H1|]. rewrite H2. reflexivity.
      * assert (Ht' : forall t, In t (tokens ++ [cur]) -> t <> "" /\
                  forall c, In c (list_ascii_of_string t) -> is_separator c = false).
        { intros t Ht. apply in_app_or in Ht as [Ht|[<-|[]]]; [now apply Htoks|].
          destruct Hcur as [|[_ H]]; [contradiction|]. now split. }
        destruct (IH "" (tokens ++ [cur]) (or_introl eq_refl) Ht') as [H1 H2].
        split; [exact H1|]. rewrite H2, flat_map_app. simpl.
        now rewrite !app_nil_r, <- app_assoc.
    + assert (Hc' : (cur ++ String ch "")%string = "" \/
                    ((cur ++ String ch "")%string <> "" /\
                     forall c, In c (list_ascii_of_string (cur ++ String ch "")) ->
                               is_separator c = false)).
      { right. split; [destruct cur; discriminate|].
        intros c. rewrite list_ascii_append. simpl. intros Hc.
        apply in_app_or in Hc as [Hc|[<-|[]]]; [|exact Hsep].
        destruct Hcur as [->|[_ H]]; [destruct Hc|now apply H]. }
      destruct (IH _ tokens Hc' Htoks) as [H1 H2].
      split; [exact H1|]. rewrite H2, list_ascii_append. simpl.
      now rewrite <- app_assoc.
Qed.

(** ** Folder names *)

Lemma get_map_string (f : ascii -> ascii) (s : string) (i : nat) :
  String.get i (map_string f s) = option_map f (String.get i s).
Proof. revert i; induction s as [|c s IH]; intros [|i]; simpl; auto. Qed.

Lemma lstrip_us_cons (c : ascii) (s : string) :
  lstrip_us (String c s) = if Ascii.eqb c "_" then lstrip_us s else String c s.
Proof. destruct c as [[] [] [] [] [] [] [] []]; reflexivity. Qed.

Lemma lstrip_us_get (s : string) (i : nat) (c : ascii) :
  String.get i (lstrip_us s) = Some c -> exists j, String.get j s = Some c.
Proof.
  revert i. induction s as [|a s IH]; intros i; [destruct i; discriminate|].
  rewrite lstrip_us_cons. destruct (Ascii.eqb a "_").
  - intros H. destruct (IH i H) as [j Hj]. now exists (S j).
  - intros H. now exists i.
Qed.

Lemma lstrip_us_first (s : string) : String.get 0 (lstrip_us s) <> Some "_"%char.
Proof.
  induction s as [|a s IH]; [discriminate|].
  rewrite lstrip_us_cons. destruct (Ascii.eqb_spec a "_"); [exact IH|].
  simpl. congruence.
Qed.

Lemma rstrip_us_get (s : string) (i : nat) (c : ascii) :
  String.get i (rstrip_us s) = Some c -> String.get i s = Some c.
Proof.
  revert i. induction s as [|a s IH]; intros i; simpl; [easy|].
  destruct (String.eqb (rstrip_us s) "" && Ascii.eqb a "_"); [destruct i; discriminate|].
  destruct i; simpl; [easy|]. apply IH.
Qed.

Lemma rstrip_us_first (s : string) :
  rstrip_us s <> "" -> String.get 0 (rstrip_us s) = String.get 0 s.
Proof.
  destruct s as [|a s]; simpl; [easy|].
  destruct (String.eqb (rstrip_us s) "" && Ascii.eqb a "_"); [easy|reflexivity].
Qed.

Lemma rstrip_us_last (s : string) :
  rstrip_us s <> "" ->
  String.get (String.length (rstrip_us s) - 1) (rstrip_us s) <> Some "_"%char.
Proof.
  induction s as [|a s IH]; simpl; [easy|].
  destruct (String.eqb_spec (rstrip_us s) "") as [He|Hne];
    destruct (Ascii.eqb_spec a "_") as [Ha|Ha]; simpl; try easy.
  - rewrite He. simpl. congruence.
  - intros _. specialize (IH Hne).
    destruct (rstrip_us s) as [|b r] eqn:E; [easy|].
    simpl in IH |- *. rewrite Nat.sub_0_r in IH. exact IH.
  - intros _. specialize (IH Hne).
    destruct (rstrip_us s) as [|b r] eqn:E; [easy|].
    simpl in IH |- *. rewrite Nat.sub_0_r in IH. exact IH.
Qed.


Section SortedFacts.
Context {A : Type} (le : A -> A -> bool).
Hypothesis le_total : forall x y, le x y = false -> le y x = true.

Lemma insert_by_hd (x y : A) (l : list A) :
  HdRel (fun a b => le a b = true) y l -> le y x = true ->
  HdRel (fun a b => le a b = true) y (insert_by le x l).
Proof.
  intros Hd Hyx. destruct l as [|z l]; simpl; [now constructor|].
  destruct (le x z); constructor; [exact Hyx|]. now inversion Hd.
Qed.

Lemma insert_by_sorted (x : A) (l : list A) :
  Sorted (fun a b => le a b = true) l ->
  Sorted (fun a b => le a b = true) (insert_by le x l).
Proof.
  induction 1 as [|y l Hl IH Hd]; simpl; [now repeat constructor|].
  destruct (le x y) eqn:Hxy.
  - constructor; [now constructor|now constructor].
  - constructor; [exact IH|]. apply insert_by_hd; [exact Hd|now apply le_total].
Qed.

Lemma sort_by_sorted (l : list A) : Sorted (fun a b => le a b = true) (sort_by le l).
Proof. induction l as [|x l IH]; simpl; [constructor|now apply insert_by_sorted]. Qed.
End SortedFacts.

Lemma string_leb_total (x y : string) : String.leb x y = false -> String.leb y x = true.
Proof. intros H. destruct (String.leb_total x y); congruence. Qed.

Lemma sort_names_sorted (l : list string) :
  Sorted (fun a b => String.leb a b = true) (sort_names l).
Proof. apply sort_by_sorted, string_leb_total. Qed.

Lemma candidate_loop_spec (entries : list (string * bool)) (acc : list string) (n : string) :
  In n (fold_left
          (fun files '(name, is_file) =>
             if negb is_file then files
             else if is_hidden name then files
             else if mem (lower (suffix name)) ALL_EXTENSIONS then files ++ [name]
             else files)
          entries acc) <->
  In n acc \/
  (In (n, true) entries /\ is_hidden n = false /\ In (lower (suffix n)) ALL_EXTENSIONS).
Proof.
  revert acc. induction entries as [|[name isf] entries IH]; intros acc; cbn [fold_left In].
  - tauto.
  - rewrite IH. destruct isf; cbn [negb].
    + destruct (is_hidden name) eqn:Hh.
      * split; [tauto|]. intros [H|[[H|H] H']]; [tauto| |tauto].
        injection H as ->. destruct H' as [H' _]. congruence.
      * destruct (mem (lower (suffix name)) ALL_EXTENSIONS) eqn:Hm.
        -- rewrite in_app_iff. cbn [In]. split.
           ++ intros [[H|[<-|[]]]|H]; [tauto| |tauto].
              right. split; [now left|]. split; [exact Hh|]. now apply mem_true_iff.
           ++ intros [H|[[H|H] H']]; [tauto| |tauto].
              injection H as ->. tauto.
        -- split; [tauto|]. intros [H|[[H|H] H']]; [tauto| |tauto].
           injection H as ->. destruct H' as [_ H']. apply mem_true_iff in H'. congruence.
    + split; [tauto|]. intros [H|[[H|H] H']]; [tauto|discriminate|tauto].
Qed.


Lemma split_loop_eq (files v0 a0 : list string) :
  fold_left
    (fun '(v, a) f =>
       let ext := lower (suffix f) in
       if mem ext VIDEO_EXTENSIONS then (v ++ [f], a)
       else if mem ext ASSET_EXTENSIONS then (v, a ++ [f])
       else (v, a))
    files (v0, a0) =
  (v0 ++ filter (fun f => mem (lower (suffix f)) VIDEO_EXTENSIONS) files,
   a0 ++ filter (fun f => negb (mem (lower (suffix f)) VIDEO_EXTENSIONS) &&
                          mem (lower (suffix f)) ASSET_EXTENSIONS) files).
Proof.
  revert v0 a0. induction files as [|f files IH]; intros v0 a0.
  - simpl. now rewrite !app_nil_r.
  - cbn [fold_left filter].
    destruct (mem (lower (suffix f)) VIDEO_EXTENSIONS); cbn [negb andb];
      [|destruct (mem (lower (suffix f)) ASSET_EXTENSIONS)];
      rewrite IH; now rewrite <- ?app_assoc.
Qed.

Lemma filter_split_perm {A} (p q : A -> bool) (l : list A) :
  Permutation (filter p l ++ filter (fun x => negb (p x) && q x) l)
              (filter (fun x => p x || q x) l).
Proof.
  induction l as [|x l IH]; simpl; [constructor|].
  destruct (p x), (q x); simpl; try exact IH.
  - now constructor.
  - now constructor.
  - rewrite <- IH. symmetry. apply Permutation_middle.
Qed.


Lemma Permutation_filter_compat {A} (p : A -> bool) (l l' : list A) :
  Permutation l l' -> Permutation (filter p l) (filter p l').
Proof.
  induction 1; simpl.
  - constructor.
  - destruct (p x); [now constructor|assumption].
  - destruct (p x), (p y); try constructor; reflexivity.
  - etransitivity; eassumption.
Qed.

Lemma sum_lengths_cons (c : string) (cs : list string) :
  sum_lengths (c :: cs) = String.length c + sum_lengths cs.
Proof.
  unfold sum_lengths. simpl.
  enough (H : forall l a, fold_left (fun acc c => acc + String.length c) l a =
                          a + fold_left (fun acc c => acc + String.length c) l 0)
    by (rewrite H; reflexivity).
  induction l as [|x l IH]; intros a; simpl; [lia|].
  rewrite IH, (IH (String.length x)). lia.
Qed.

Lemma sum_lengths_le_max (cs : list string) :
  cs <> [] -> exists c, In c cs /\ sum_lengths cs <= List.length cs * String.length c.
Proof.
  induction cs as [|x cs IH]; intros Hne; [congruence|].
  destruct cs as [|y cs].
  - exists x. split; [now left|]. rewrite sum_lengths_cons. simpl. unfold sum_lengths. simpl. lia.
  - destruct (IH ltac:(discriminate)) as [m [Hm Hs]].
    rewrite sum_lengths_cons.
    destruct (Nat.le_gt_cases (String.length x) (String.length m)).
    + exists m. split; [now right|]. cbn [List.length] in *. nia.
    + exists x. split; [now left|]. cbn [List.length] in *. nia.
Qed.

(** ** Final clusters *)

Lemma has_best_of_match (o : list string) (f c : string) :
  In c o -> startswith (stem f) c = true -> has_best o f = true.
Proof.
  intros Hc Hs. unfold has_best, best_core.
  destruct (filter (fun core => startswith (stem f) core) o) eqn:E; [|reflexivity].
  assert (H : In c (filter (fun core => startswith (stem f) core) o))
    by (apply filter_In; tauto).
  rewrite E in H. destruct H.
Qed.

Lemma ldict_init_keys (o : list string) :
  forall c, In c o -> In c (map fst (ldict_init o)).
Proof.
  intros c Hc. unfold ldict_init. rewrite map_map. simpl. rewrite map_id.
  now apply in_set_of.
Qed.

Lemma assign_files_assigned (o all : list string) :
  Permutation (flat_map snd (assign_files o all)) (filter (has_best o) all).
Proof.
  destruct (assign_loop_spec o all (ldict_init o) (ldict_init_keys o)) as [_ [H2 _]].
  fold (assign_files o all) in H2. rewrite H2.
  assert (Hinit : flat_map snd (ldict_init o) = []).
  { unfold ldict_init. induction (set_of o); simpl; auto. }
  now rewrite Hinit.
Qed.

Lemma ldict_get_in_flat (d : list (string * list string)) (k x : string) :
  In x (ldict_get d k) -> In x (flat_map snd d).
Proof.
  induction d as [|[k' v] d IH]; simpl; [tauto|].
  destruct (String.eqb k k'); intros H; apply in_or_app; [now left|right; now apply IH].
Qed.

Lemma make_final_clusters_cores (o : list string) (d : list (string * list string))
    (acc : list FinalCluster) :
  map core_guess
    (fold_left
       (fun acc core =>
          let ms := ldict_get d core in
          match ms with
          | [] => acc
          | _ => acc ++ [{| core_guess := core; fc_members := sort_names ms;
                            video_count := List.length (filter is_video ms) |}]
          end) o acc) =
  map core_guess acc ++
  filter (fun c => match ldict_get d c with [] => false | _ => true end) o.
Proof.
  revert acc. induction o as [|c o IH]; intros acc; simpl; [now rewrite app_nil_r|].
  rewrite IH. destruct (ldict_get d c); [reflexivity|].
  rewrite map_app, <- app_assoc. reflexivity.
Qed.

Lemma make_final_clusters_shape (o : list string) (d : list (string * list string))
    (fc : FinalCluster) :
  In fc (make_final_clusters o d) ->
  ldict_get d (core_guess fc) <> [] /\
  fc_members fc = sort_names (ldict_get d (core_guess fc)) /\
  video_count fc = List.length (filter is_video (ldict_get d (core_guess fc))).
Proof.
  unfold make_final_clusters.
  enough (H : forall acc,
             In fc (fold_left
                      (fun acc core =>
                         let ms := ldict_get d core in
                         match ms with
                         | [] => acc
                         | _ => acc ++ [{| core_guess := core; fc_members := sort_names ms;
                                           video_count := List.length (filter is_video ms) |}]
                         end) o acc) ->
             In fc acc \/
             (ldict_get d (core_guess fc) <> [] /\
              fc_members fc = sort_names (ldict_get d (core_guess fc)) /\
              video_count fc = List.length (filter is_video (ldict_get d (core_guess fc)))))
    by (intros Hin; destruct (H [] Hin) as [[]|H']; exact H').
  induction o as [|c o IH]; intros acc Hin; simpl in Hin; [now left|].
  destruct (IH _ Hin) as [Hacc|H']; [|now right].
  destruct (ldict_get d c) as [|m ms] eqn:E; [now left|].
  apply in_app_iff in Hacc as [Hacc|[<-|[]]]; [now left|].
  right. simpl. rewrite E. split; [discriminate|]. split; reflexivity.
Qed.

(** ** Mined substrings *)

Lemma sdict_set_keys (d : list (string * string)) (k v : string) :
  NoDup (map fst d) ->
  NoDup (map fst (sdict_set d k v)) /\
  (forall x, In x (map fst (sdict_set d k v)) <-> x = k \/ In x (map fst d)).
Proof.
  induction d as [|[k' v'] d IH]; simpl; intros Hnd.
  - split; [repeat constructor; simpl; tauto|]. intros x. intuition congruence.
  - inversion Hnd as [|? ? Hk Hnd']; subst.
    destruct (String.eqb_spec k k') as [->|Hne]; simpl.
    + split; [exact Hnd|]. intros x. intuition congruence.
    + destruct (IH Hnd') as [H1 H2]. split.
      * constructor; [|exact H1]. rewrite H2. intros [H|H]; [congruence|tauto].
      * intros x. rewrite H2. intuition congruence.
Qed.

Lemma sdict_set_in_eq (d : list (string * string)) (k v : string) (kv : string * string) :
  In kv (sdict_set d k v) -> In kv d \/ kv = (k, v).
Proof.
  induction d as [|[k' v'] d IH]; simpl.
  - intros [<-|[]]. now right.
  - destruct (String.eqb_spec k k') as [->|Hne]; simpl.
    + intros [<-|H]; [now right|now left; right].
    + intros [<-|H]; [now left; left|]. destruct (IH H); [left; now right|now right].
Qed.

Lemma tag_map_of_keys (raw : list string) :
  NoDup (map fst (tag_map_of raw)) /\
  (forall kv, In kv (tag_map_of raw) -> normalize_tag (snd kv) = fst kv).
Proof.
  unfold tag_map_of.
  enough (H : forall l acc,
             NoDup (map fst acc) ->
             (forall kv, In kv acc -> normalize_tag (snd kv) = fst kv) ->
             let r := fold_left
               (fun tag_map sub =>
                  if String.length sub <? 3 then tag_map
                  else
                    let norm := normalize_tag sub in
                    if String.eqb norm "" then tag_map
                    else match sdict_get tag_map norm with
                         | None => sdict_set tag_map norm sub
                         | Some prev =>
                             if String.length prev <? String.length sub
                             then sdict_set tag_map norm sub else tag_map
                         end) l acc in
             NoDup (map fst r) /\
             (forall kv, In kv r -> normalize_tag (snd kv) = fst kv))
    by (apply H; [constructor|intros ? []]).
  induction l as [|sub l IH]; intros acc Hnd Hkv; simpl; [tauto|].
  apply IH.
  - destruct (String.length sub <? 3); [exact Hnd|].
    destruct (String.eqb (normalize_tag sub) ""); [exact Hnd|].
    destruct (sdict_get acc (normalize_tag sub)) as [prev|];
      [destruct (String.length prev <? String.length sub)|];
      try exact Hnd; apply sdict_set_keys, Hnd.
  - assert (Hset : forall kv, In kv (sdict_set acc (normalize_tag sub) sub) ->
                              normalize_tag (snd kv) = fst kv).
    { intros kv Hin. destruct (sdict_set_in_eq _ _ _ _ Hin) as [H| ->];
        [now apply Hkv|reflexivity]. }
    destruct (String.length sub <? 3); [exact Hkv|].
    destruct (String.eqb (normalize_tag sub) ""); [exact Hkv|].
    destruct (sdict_get acc (normalize_tag sub)) as [prev|];
      [destruct (String.length prev <? String.length sub)|]; assumption.
Qed.

Lemma len_desc_leb_total (x y : string) :
  len_desc_leb x y = false -> len_desc_leb y x = true.
Proof.
  unfold len_desc_leb. intros H.
  apply orb_false_iff in H as [H1 H2]. apply Nat.ltb_ge in H1.
  destruct (Nat.eq_dec (String.length x) (String.length y)) as [E|E].
  - rewrite E, Nat.eqb_refl in H2. simpl in H2.
    rewrite E, Nat.eqb_refl, Nat.ltb_irrefl. simpl. now apply string_leb_total.
  - apply orb_true_iff. left. apply Nat.ltb_lt. lia.
Qed.


Lemma NoDup_app_disj {A} (l1 l2 : list A) (x : A) :
  NoDup (l1 ++ l2) -> In x l1 -> In x l2 -> False.
Proof.
  induction l1 as [|y l1 IH]; simpl; [tauto|].
  intros Hnd. inversion Hnd as [|? ? Hy Hnd']; subst.
  intros [->|Hx] H2; [apply Hy; apply in_or_app; now right|exact (IH Hnd' Hx H2)].
Qed.

Lemma dict_get_set_mono (d : list (string * bool)) (k k' : string) :
  dict_get d k' = true -> dict_get (dict_set d k true) k' = true.
Proof. intros H. apply dict_get_set_true. now right. Qed.

Lemma dict_get_set_self (d : list (string * bool)) (k : string) :
  dict_get (dict_set d k true) k = true.
Proof. apply dict_get_set_true. now left. Qed.

Lemma dict_get_set_false (d : list (string * bool)) (k k' : string) :
  dict_get (dict_set d k true) k' = false -> dict_get d k' = false.
Proof.
  intros H. destruct (dict_get d k') eqn:E; [|reflexivity].
  rewrite dict_get_set_mono in H by exact E. discriminate.
Qed.

Lemma scan_videos_spec (ratio : string -> string -> Q) (t : Z) (seed_name : string)
    (others m : list string) (av : list (string * bool)) m' av' :
  scan_videos ratio t seed_name others m av = (m', av') ->
  exists added, m' = m ++ added /\ incl added others /\ NoDup added /\
    (forall x, In x added -> dict_get av x = false /\ x <> seed_name) /\
    (forall x, In x added -> dict_get av' x = true) /\
    (forall x, dict_get av x = true -> dict_get av' x = true).
Proof.
  revert m av. induction others as [|o others IH]; intros m av H; simpl in H.
  - injection H as <- <-. exists []. rewrite app_nil_r.
    split; [reflexivity|]. split; [intros x []|]. split; [constructor|].
    split; [intros x []|]. split; [intros x []|]. auto.
  - destruct (String.eqb_spec o seed_name) as [Heq|Hne].
    + destruct (IH _ _ H) as [ad [H1 [H2 [H3 [H4 [H5 H6]]]]]].
      exists ad. split; [exact H1|]. split; [intros x Hx; right; now apply H2|]. auto.
    + destruct (dict_get av o) eqn:Ho.
      * destruct (IH _ _ H) as [ad [H1 [H2 [H3 [H4 [H5 H6]]]]]].
        exists ad. split; [exact H1|]. split; [intros x Hx; right; now apply H2|]. auto.
      * destruct (meets ratio t seed_name o).
        -- destruct (IH _ _ H) as [ad [H1 [H2 [H3 [H4 [H5 H6]]]]]].
           exists (o :: ad). split; [now rewrite H1, <- app_assoc|].
           split; [intros x [<-|Hx]; [now left|right; now apply H2]|].
           split.
           { constructor; [|exact H3]. intros Hin.
             destruct (H4 o Hin) as [Hf _]. rewrite dict_get_set_self in Hf. discriminate. }
           split; [|split].
           ++ intros x [<-|Hx]; [tauto|].
              destruct (H4 x Hx) as [Hf Hs]. split; [|exact Hs].
              exact (dict_get_set_false _ _ _ Hf).
           ++ intros x [<-|Hx]; [apply H6, dict_get_set_self|now apply H5].
           ++ intros x Hx. apply H6, dict_get_set_mono, Hx.
        -- destruct (IH _ _ H) as [ad [H1 [H2 [H3 [H4 [H5 H6]]]]]].
           exists ad. split; [exact H1|]. split; [intros x Hx; right; now apply H2|]. auto.
Qed.

Lemma scan_assets_spec (ratio : string -> string -> Q) (t : Z) (seed_name : string)
    (assets m : list string) (aa : list (string * bool)) m' aa' :
  scan_assets ratio t seed_name assets m aa = (m', aa') ->
  exists added, m' = m ++ added /\ incl added assets /\ NoDup added /\
    (forall x, In x added -> dict_get aa x = false) /\
    (forall x, In x added -> dict_get aa' x = true) /\
    (forall x, dict_get aa x = true -> dict_get aa' x = true).
Proof.
  revert m aa. induction assets as [|o assets IH]; intros m aa H; simpl in H.
  - injection H as <- <-. exists []. rewrite app_nil_r.
    split; [reflexivity|]. split; [intros x []|]. split; [constructor|].
    split; [intros x []|]. split; [intros x []|]. auto.
  - destruct (dict_get aa o) eqn:Ho.
    + destruct (IH _ _ H) as [ad [H1 [H2 [H3 [H4 [H5 H6]]]]]].
      exists ad. split; [exact H1|]. split; [intros x Hx; right; now apply H2|]. auto.
    + destruct (meets ratio t seed_name o).
      * destruct (IH _ _ H) as [ad [H1 [H2 [H3 [H4 [H5 H6]]]]]].
        exists (o :: ad). split; [now rewrite H1, <- app_assoc|].
        split; [intros x [<-|Hx]; [now left|right; now apply H2]|].
        split.
        { constructor; [|exact H3]. intros Hin.
          pose proof (H4 o Hin) as Hf. rewrite dict_get_set_self in Hf. discriminate. }
        split; [|split].
        -- intros x [<-|Hx]; [exact Ho|].
           exact (dict_get_set_false _ _ _ (H4 x Hx)).
        -- intros x [<-|Hx]; [apply H6, dict_get_set_self|now apply H5].
        -- intros x Hx. apply H6, dict_get_set_mono, Hx.
      * destruct (IH _ _ H) as [ad [H1 [H2 [H3 [H4 [H5 H6]]]]]].
        exists ad. split; [exact H1|]. split; [intros x Hx; right; now apply H2|]. auto.
Qed.

Section ClusterInvariant.
Variable ratio : string -> string -> Q.
Variable threshold : Z.
Variables video_files asset_files : list string.
Hypothesis files_NoDup : NoDup (video_files ++ asset_files).

(** What holds of the clustering state after each seed. *)
Let state_ok (st : ClusterState) : Prop :=
  NoDup (flat_map members (clusters st)) /\
  (forall x, In x (flat_map members (clusters st)) ->
     (In x video_files /\ dict_get (assigned_videos st) x = true) \/
     (In x asset_files /\ dict_get (assigned_assets st) x = true)) /\
  (forall c, In c (clusters st) ->
     2 <= List.length (members c) /\ In (seed c) (members c) /\
     In (seed c) video_files /\ incl (members c) (video_files ++ asset_files) /\
     Sorted (fun x y => String.leb x y = true) (members c)).

Lemma seed_step_ok (st : ClusterState) (s : string) :
  In s video_files -> state_ok st ->
  state_ok (seed_step ratio threshold video_files asset_files st s).
Proof.
  intros Hs [Hnd [Hled Hcl]]. unfold state_ok, seed_step.
  destruct (dict_get (assigned_videos st) s) eqn:Hss; [exact (conj Hnd (conj Hled Hcl))|].
  destruct (scan_videos ratio threshold s (sort_names video_files) [s]
              (dict_set (assigned_videos st) s true)) as [m1 av'] eqn:E1.
  destruct (scan_assets ratio threshold s (sort_names asset_files) m1
              (assigned_assets st)) as [m2 aa'] eqn:E2.
  destruct (scan_videos_spec _ _ _ _ _ _ _ _ E1) as [adv [Hm1 [Hiv [Hndv [Hfv [Htv Hmv]]]]]].
  destruct (scan_assets_spec _ _ _ _ _ _ _ _ E2) as [ada [Hm2 [Hia [Hnda [Hfa [Hta Hma]]]]]].
  subst m1 m2.
  assert (Hdisj : forall x, In x video_files -> In x asset_files -> False)
    by (intros x; apply NoDup_app_disj, files_NoDup).
  assert (Hadv : forall x, In x adv -> In x video_files)
    by (intros x Hx; apply (in_sort_by String.leb), Hiv, Hx).
  assert (Hada : forall x, In x ada -> In x asset_files)
    by (intros x Hx; apply (in_sort_by String.leb), Hia, Hx).
  (* the new member list *)
  assert (Hnew_led : forall x, In x (([s] ++ adv) ++ ada) ->
            (In x video_files /\ dict_get av' x = true) \/
            (In x asset_files /\ dict_get aa' x = true)).
  { intros x Hx. rewrite <- app_assoc in Hx. simpl in Hx. destruct Hx as [<-|Hx].
    - left. split; [exact Hs|]. apply Hmv, dict_get_set_self.
    - apply in_app_or in Hx as [Hx|Hx].
      + left. split; [now apply Hadv|now apply Htv].
      + right. split; [now apply Hada|now apply Hta]. }
  assert (Hnew_fresh : forall x, In x (([s] ++ adv) ++ ada) ->
            In x (flat_map members (clusters st)) -> False).
  { intros x Hx Hold. rewrite <- app_assoc in Hx. simpl in Hx.
    destruct (Hled x Hold) as [[Hv Hg]|[Ha Hg]].
    - destruct Hx as [<-|Hx]; [congruence|].
      apply in_app_or in Hx as [Hx|Hx].
      + destruct (Hfv x Hx) as [Hf _]. apply dict_get_set_false in Hf. congruence.
      + exact (Hdisj x Hv (Hada x Hx)).
    - destruct Hx as [<-|Hx]; [exact (Hdisj _ Hs Ha)|].
      apply in_app_or in Hx as [Hx|Hx].
      + exact (Hdisj x (Hadv x Hx) Ha).
      + pose proof (Hfa x Hx). congruence. }
  assert (Hnew_nd : NoDup (([s] ++ adv) ++ ada)).
  { rewrite <- app_assoc. simpl. constructor.
    - intros Hin. apply in_app_or in Hin as [Hin|Hin].
      + destruct (Hfv s Hin). congruence.
      + exact (Hdisj s Hs (Hada s Hin)).
    - apply NoDup_app; [exact Hndv|exact Hnda|].
      intros x H1 H2. exact (Hdisj x (Hadv x H1) (Hada x H2)). }
  assert (Hold_led : forall x, In x (flat_map members (clusters st)) ->
            (In x video_files /\ dict_get av' x = true) \/
            (In x asset_files /\ dict_get aa' x = true)).
  { intros x Hx. destruct (Hled x Hx) as [[H1 H2]|[H1 H2]].
    - left. split; [exact H1|]. apply Hmv, dict_get_set_mono, H2.
    - right. split; [exact H1|]. apply Hma, H2. }
  destruct (2 <=? List.length (([s] ++ adv) ++ ada)) eqn:Hlen; cbn [clusters
    assigned_videos assigned_assets].
  - split; [|split].
    + rewrite flat_map_app. cbn [flat_map members]. rewrite app_nil_r.
      apply NoDup_app; [exact Hnd| |].
      * apply (Permutation_NoDup (Permutation_sym (sort_by_perm String.leb _))), Hnew_nd.
      * intros x H1 H2. unfold sort_names in H2; rewrite in_sort_by in H2. exact (Hnew_fresh x H2 H1).
    + intros x Hx. rewrite flat_map_app in Hx. apply in_app_or in Hx as [Hx|Hx];
        [now apply Hold_led|]. cbn [flat_map members] in Hx. rewrite app_nil_r in Hx.
      unfold sort_names in Hx; rewrite in_sort_by in Hx. now apply Hnew_led.
    + intros c Hc. apply in_app_or in Hc as [Hc|[<-|[]]]; [now apply Hcl|].
      cbn [members seed]. split; [|split; [|split; [exact Hs|split]]].
      * unfold sort_names. rewrite (Permutation_length (sort_by_perm _ _)).
        now apply Nat.leb_le.
      * apply in_sort_by. now left.
      * intros x Hx. unfold sort_names in Hx; rewrite in_sort_by in Hx. apply in_or_app.
        destruct (Hnew_led x Hx) as [[H _]|[H _]]; tauto.
      * apply sort_names_sorted.
  - split; [exact Hnd|]. split; [exact Hold_led|exact Hcl].
Qed.

Lemma seeds_ok (seeds : list string) (st : ClusterState) :
  incl seeds video_files -> state_ok st ->
  state_ok (fold_left (seed_step ratio threshold video_files asset_files) seeds st).
Proof.
  revert st. induction seeds as [|s seeds IH]; intros st Hinc Hst; simpl; [exact Hst|].
  apply IH; [intros x Hx; apply Hinc; now right|].
  apply seed_step_ok; [apply Hinc; now left|exact Hst].
Qed.

Lemma cluster_files_invariant :
  let '(clusters, _) := cluster_files_at ratio threshold video_files asset_files in
  NoDup (flat_map members clusters) /\
  (forall c, In c clusters ->
     2 <= List.length (members c) /\ In (seed c) (members c) /\
     In (seed c) video_files /\ incl (members c) (video_files ++ asset_files) /\
     Sorted (fun x y => String.leb x y = true) (members c)).
Proof.
  unfold cluster_files_at.
  assert (H : state_ok (fold_left (seed_step ratio threshold video_files asset_files)
                          (sort_names video_files)
                          {| clusters := [];
                             assigned_videos := map (fun vf => (vf, false)) video_files;
                             assigned_assets := map (fun af => (af, false)) asset_files |})).
  { apply seeds_ok; [intros x Hx; apply (in_sort_by String.leb), Hx|].
    split; [constructor|]. split; [intros x []|intros c []]. }
  destruct H as [H1 [_ H3]]. split; [exact H1|exact H3].
Qed.
End ClusterInvariant.

Lemma set_of_perm_length (l1 l2 : list string) :
  Permutation l1 l2 -> List.length (set_of l1) = List.length (set_of l2).
Proof.
  intros Hp. apply Permutation_length, NoDup_Permutation; try apply set_of_NoDup.
  intros x. rewrite !in_set_of. split; apply Permutation_in; [exact Hp|now symmetry].
Qed.

Lemma str_append_same_length (p1 t1 p2 t2 : string) :
  (p1 ++ t1)%string = (p2 ++ t2)%string -> String.length p1 = String.length p2 -> p1 = p2.
Proof.
  revert p2. induction p1 as [|c p1 IH]; intros [|c' p2]; simpl; try easy.
  intros H Hl. injection H as -> H. f_equal. apply (IH p2 H). lia.
Qed.

Lemma startswith_same_length (s p1 p2 : string) :
  startswith s p1 = true -> startswith s p2 = true ->
  String.length p1 = String.length p2 -> p1 = p2.
Proof.
  unfold startswith. rewrite !prefix_iff. intros [t1 H1] [t2 H2].
  rewrite H1 in H2. now apply str_append_same_length with t1 t2.
Qed.

Lemma assign_files_lands (o all : list string) (f k : string) :
  In f all -> best_core o f = Some k -> In f (ldict_get (assign_files o all) k).
Proof.
  intros Hf Hb.
  assert (Hin : In f (flat_map snd (assign_files o all))).
  { apply (Permutation_in _ (Permutation_sym (assign_files_assigned o all))), filter_In.
    split; [exact Hf|unfold has_best; now rewrite Hb]. }
  destruct (assign_loop_spec o all (ldict_init o) (ldict_init_keys o)) as [H1 _].
  fold (assign_files o all) in H1.
  assert (Hnd : NoDup (map fst (assign_files o all))).
  { rewrite H1. unfold ldict_init. rewrite map_map. simpl. rewrite map_id.
    apply set_of_NoDup. }
  rewrite <- (ldict_get_all _ Hnd) in Hin.
  apply in_flat_map in Hin as [k' [_ Hk']].
  pose proof (assign_files_best o all k' f Hk') as Hb'.
  rewrite Hb in Hb'. injection Hb' as ->. exact Hk'.
Qed.

Lemma process_folder_writes_ok (ratio : string -> string -> Q) (fs : FileSystem)
    (timestamp folder_arg : string) :
  (forall p, fs_write_ok fs p = true) ->
  (exists folder, fs_resolve fs folder_arg = Ok folder /\
     (fs_exists fs folder = Ok false \/
        (fs_exists fs folder = Ok true /\
         (fs_is_dir fs folder = Ok false \/
          (fs_is_dir fs folder = Ok true /\
           exists entries, fs_iterdir fs folder = Ok entries))))) ->
  exists ev, process_folder ratio fs timestamp folder_arg = (ev, Ok tt) /\
    forall p, In (Wrote p) ev <->
      exists folder entries, fs_resolve fs folder_arg = Ok folder /\
        fs_exists fs folder = Ok true /\ fs_is_dir fs folder = Ok true /\
        fs_iterdir fs folder = Ok entries /\ list_candidate_files entries <> [] /\
        p = report_path timestamp folder.
Proof.
  intros Hw [folder [Hr Hreads]]. unfold process_folder. rewrite Hr.
  destruct Hreads as [He|[He [Hd|[Hd [entries Hi]]]]]; rewrite He.
  { eexists. split; [reflexivity|]. intros p. simpl.
    split; [intros [H|[]]; discriminate|].
    intros [fo [en [Hr' [He' _]]]]. congruence. }
  all: rewrite Hd.
  { eexists. split; [reflexivity|]. intros p. simpl.
    split; [intros [H|[]]; discriminate|].
    intros [fo [en [Hr' [_ [Hd' _]]]]]. congruence. }
  rewrite Hi.
  destruct (list_candidate_files entries) as [|f fs'] eqn:Hc.
  { eexists. split; [reflexivity|]. intros p. simpl.
    split; [intros [H|[]]; discriminate|].
    intros [fo [en [Hr' [_ [_ [Hi' [Hc' _]]]]]]]. congruence. }
  destruct (split_files_by_role (f :: fs')) as [video_files asset_files].
  destruct (cluster_files ratio video_files asset_files) as [initial_clusters ss].
  destruct (build_final_clusters_no_raise initial_clusters video_files asset_files)
    as [r Hr0].
  rewrite Hr0. unfold write_report. rewrite Hw.
  eexists. split; [reflexivity|]. intros p. simpl. split.
  - intros [H|[H|[]]]; [discriminate|]. injection H as <-.
    exists folder, entries. rewrite Hc.
    repeat split; try assumption; try reflexivity. discriminate.
  - intros [fo [en [Hr' [_ [_ [_ [_ ->]]]]]]].
    replace fo with folder by congruence. right. now left.
Qed.

Lemma run_folders_writes_ok (ratio : string -> string -> Q) (fs : FileSystem)
    (timestamp : string) (folder_args : list string) :
  (forall p, fs_write_ok fs p = true) ->
  (forall a, In a folder_args ->
     exists folder, fs_resolve fs a = Ok folder /\
       (fs_exists fs folder = Ok false \/
        (fs_exists fs folder = Ok true /\
         (fs_is_dir fs folder = Ok false \/
          (fs_is_dir fs folder = Ok true /\
           exists entries, fs_iterdir fs folder = Ok entries))))) ->
  exists ev, run_folders ratio fs timestamp folder_args = (ev, Ok tt) /\
    forall p, In (Wrote p) ev <->
      exists a folder entries, In a folder_args /\ fs_resolve fs a = Ok folder /\
        fs_exists fs folder = Ok true /\ fs_is_dir fs folder = Ok true /\
        fs_iterdir fs folder = Ok entries /\ list_candidate_files entries <> [] /\
        p = report_path timestamp folder.
Proof.
  intros Hw Hreads. induction folder_args as [|a rest IH]; simpl.
  - exists []. split; [reflexivity|]. intros p.
    split; [intros []|intros [? [? [? [[] _]]]]].
  - destruct (process_folder_writes_ok ratio fs timestamp a Hw
                (Hreads a (or_introl eq_refl))) as [ev1 [E1 H1]].
    rewrite E1.
    destruct IH as [ev2 [E2 H2]]; [intros a' Ha'; apply Hreads; now right|].
    rewrite E2.
    eexists. split; [reflexivity|]. intros p. rewrite in_app_iff, H1, H2. split.
    + intros [[folder [entries H]]|[a' [folder [entries [Ha' H]]]]].
      * exists a, folder, entries. split; [now left|exact H].
      * exists a', folder, entries. split; [now right|exact H].
    + intros [a' [folder [entries [[<-|Ha'] H]]]].
      * left. exists folder, entries. exact H.
      * right. exists a', folder, entries. split; [exact Ha'|exact H].
Qed.

Lemma run_folders_app (ratio : string -> string -> Q) (fs : FileSystem)
    (timestamp : string) (pre l : list string) (ev0 : list event) :
  run_folders ratio fs timestamp pre = (ev0, Ok tt) ->
  run_folders ratio fs timestamp (pre ++ l) =
    (ev0 ++ fst (run_folders ratio fs timestamp l),
     snd (run_folders ratio fs timestamp l)).
Proof.
  revert ev0. induction pre as [|x pre IH]; intros ev0 E; simpl in *.
  - injection E as <-. simpl. now destruct (run_folders ratio fs timestamp l).
  - destruct (process_folder ratio fs timestamp x) as [ev1 [u|e]]; [|discriminate].
    destruct (run_folders ratio fs timestamp pre) as [ev2 r2] eqn:E2.
    injection E as <- ->. rewrite (IH ev2 eq_refl).
    rewrite app_assoc. reflexivity.
Qed.

(** ** Occurrences of a substring *)










(** ** The expansion loops keep the occurrence in every matching core *)



(** ** Normalized tags *)















Lemma intersect_loop_complete (base : string) (cur others : list string) (s : string) :
  In s cur -> (forall o, In o others -> In s (common_substrings base o)) ->
  In s (intersect_loop base cur others).
Proof.
  revert cur. induction others as [|o others IH]; intros cur Hs Ho; simpl; [exact Hs|].
  assert (Hf : In s (filter (fun s => mem s (common_substrings base o)) cur)).
  { apply filter_In. split; [exact Hs|]. apply mem_true_iff, Ho. now left. }
  destruct (filter (fun s => mem s (common_substrings base o)) cur) as [|x xs] eqn:E;
    [destruct Hf|].
  apply IH; [exact Hf|]. intros o' Ho'. apply Ho. now right.
Qed.

Lemma in_common_substrings (base o s : string) :
  In s (substrings_ge2 base) -> contains s o = true -> In s (common_substrings base o).
Proof.
  intros H1 H2. unfold common_substrings. apply in_set_of, filter_In. now split.
Qed.

Lemma sdict_get_set (d : list (string * string)) (k v k' : string) :
  sdict_get (sdict_set d k v) k' =
  if String.eqb k' k then Some v else sdict_get d k'.
Proof.
  induction d as [|[k1 v1] d IH]; simpl; [destruct (String.eqb k' k); reflexivity|].
  destruct (String.eqb_spec k k1) as [->|Hne]; simpl.
  - destruct (String.eqb_spec k' k1); reflexivity.
  - rewrite IH. destruct (String.eqb_spec k' k1) as [->|Hne'];
      destruct (String.eqb_spec k1 k) as [->|Hne'']; congruence.
Qed.

Lemma sdict_get_in (d : list (string * string)) (k v : string) :
  sdict_get d k = Some v -> In (k, v) d.
Proof.
  induction d as [|[k1 v1] d IH]; simpl; [discriminate|].
  destruct (String.eqb_spec k k1) as [->|_]; [intros H; injection H as <-; now left|].
  intros H. right. now apply IH.
Qed.

Definition tag_map_step (tag_map : list (string * string)) (sub : string)
  : list (string * string) :=
  if String.length sub <? 3 then tag_map
  else
    let norm := normalize_tag sub in
    if String.eqb norm "" then tag_map
    else match sdict_get tag_map norm with
         | None => sdict_set tag_map norm sub
         | Some prev =>
             if String.length prev <? String.length sub
             then sdict_set tag_map norm sub else tag_map
         end.

Lemma tag_map_step_mono (acc : list (string * string)) (sub k p : string) :
  sdict_get acc k = Some p ->
  exists p', sdict_get (tag_map_step acc sub) k = Some p' /\
             String.length p <= String.length p'.
Proof.
  intros Hp. unfold tag_map_step.
  destruct (String.length sub <? 3); [exists p; now split|].
  destruct (String.eqb (normalize_tag sub) ""); [exists p; now split|].
  destruct (sdict_get acc (normalize_tag sub)) as [prev|] eqn:Hg.
  - destruct (String.length prev <? String.length sub) eqn:Hl; [|exists p; now split].
    rewrite sdict_get_set. destruct (String.eqb_spec k (normalize_tag sub)) as [->|_].
    + exists sub. split; [reflexivity|]. rewrite Hg in Hp. injection Hp as ->.
      apply Nat.ltb_lt in Hl. lia.
    + exists p. now split.
  - rewrite sdict_get_set. destruct (String.eqb_spec k (normalize_tag sub)) as [->|_].
    + congruence.
    + exists p. now split.
Qed.

Lemma tag_map_step_self (acc : list (string * string)) (sub : string) :
  3 <= String.length sub -> normalize_tag sub <> "" ->
  exists p, sdict_get (tag_map_step acc sub) (normalize_tag sub) = Some p /\
            String.length sub <= String.length p.
Proof.
  intros H3 Hne. unfold tag_map_step.
  destruct (Nat.ltb_spec (String.length sub) 3) as [H|_]; [lia|].
  destruct (String.eqb_spec (normalize_tag sub) "") as [E|_]; [contradiction|].
  destruct (sdict_get acc (normalize_tag sub)) as [prev|] eqn:Hg.
  - destruct (Nat.ltb_spec (String.length prev) (String.length sub)) as [Hl|Hl].
    + rewrite sdict_get_set, String.eqb_refl. exists sub. now split.
    + exists prev. now split.
  - rewrite sdict_get_set, String.eqb_refl. exists sub. now split.
Qed.

Lemma tag_map_fold_mono (l : list string) (acc : list (string * string)) (k p : string) :
  sdict_get acc k = Some p ->
  exists p', sdict_get (fold_left tag_map_step l acc) k = Some p' /\
             String.length p <= String.length p'.
Proof.
  revert acc p. induction l as [|sub l IH]; intros acc p Hp; simpl; [exists p; now split|].
  destruct (tag_map_step_mono acc sub k p Hp) as [p1 [H1 L1]].
  destruct (IH _ _ H1) as [p2 [H2 L2]]. exists p2. split; [exact H2|lia].
Qed.

(** Every qualifying raw substring is represented in the tag map by a
    substring of the same normal form that is at least as long. *)
Lemma tag_map_of_complete (raw : list string) (s : string) :
  In s raw -> 3 <= String.length s -> normalize_tag s <> "" ->
  exists p, In (normalize_tag s, p) (tag_map_of raw) /\ String.length s <= String.length p.
Proof.
  intros Hs H3 Hne.
  change (tag_map_of raw) with (fold_left tag_map_step raw []).
  enough (H : forall l acc, In s l ->
             exists p, sdict_get (fold_left tag_map_step l acc) (normalize_tag s) = Some p /\
                       String.length s <= String.length p).
  { destruct (H raw [] Hs) as [p [Hp Hl]]. exists p. split; [now apply sdict_get_in|exact Hl]. }
  induction l as [|sub l IH]; intros acc Hin; [destruct Hin|].
  destruct Hin as [->|Hin]; cbn [fold_left]; [|now apply IH].
  destruct (tag_map_step_self acc s H3 Hne) as [p1 [H1 L1]].
  destruct (tag_map_fold_mono l _ _ _ H1) as [p2 [H2 L2]].
  exists p2. split; [exact H2|lia].
Qed.

Lemma mined_normal_forms_NoDup (normal_cores : list string) :
  NoDup (map normalize_tag (mine_shared_substrings normal_cores)).
Proof.
  unfold mine_shared_substrings. destruct normal_cores as [|c0 rest]; [constructor|].
  cbv zeta. unfold sort_len_desc at 1.
  set (tm := tag_map_of _).
  destruct (tag_map_of_keys (sort_len_desc (intersect_loop (hd "" (firstn 5 (c0 :: rest)))
               (set_of (substrings_ge2 (hd "" (firstn 5 (c0 :: rest)))))
               (tl (firstn 5 (c0 :: rest)))))) as [Hnd Hkv].
  fold tm in Hnd, Hkv.
  apply (Permutation_NoDup (Permutation_map normalize_tag
                             (Permutation_sym (sort_by_perm len_desc_leb _)))).
  rewrite map_map.
  replace (map (fun x => normalize_tag (snd x)) tm) with (map fst tm); [exact Hnd|].
  apply map_ext_in. intros kv Hin. symmetry. now apply Hkv.
Qed.

Lemma make_final_clusters_find (o : list string) (d : list (string * list string))
    (k f : string) :
  In k o -> In f (ldict_get d k) ->
  exists fc, In fc (make_final_clusters o d) /\ core_guess fc = k /\ In f (fc_members fc).
Proof.
  intros Hk Hf.
  assert (Hin : In k (map core_guess (make_final_clusters o d))).
  { unfold make_final_clusters. rewrite make_final_clusters_cores. simpl.
    apply filter_In. split; [exact Hk|]. destruct (ldict_get d k); [destruct Hf|reflexivity]. }
  apply in_map_iff in Hin as [fc [Hfc Hin]]. exists fc.
  split; [exact Hin|]. split; [exact Hfc|].
  destruct (make_final_clusters_shape o d fc Hin) as [_ [Hm _]].
  rewrite Hm, Hfc. unfold sort_names. now apply in_sort_by.
Qed.

(** * Claims *)

(** C2. Partition property: for a folder whose candidate files are
    distinct, every video or asset is, exactly once, either a member of a
    final cluster or a final singleton, and nothing else appears there. *)
Theorem build_final_clusters_partition (ic : list Cluster) (v a : list string) :
  NoDup (v ++ a) ->
  match build_final_clusters ic v a with
  | Ok (final_clusters, final_singletons, _, _, _) =>
      (forall f, In f (v ++ a) ->
         count_occ string_dec
           (flat_map fc_members final_clusters ++ final_singletons) f = 1) /\
      (forall f, In f (flat_map fc_members final_clusters ++ final_singletons) ->
         In f (v ++ a))
  | Raise _ => False
  end.
Proof.
  intros Hnd. pose proof (build_final_clusters_perm ic v a) as Hp.
  destruct (build_final_clusters ic v a) as [[[[[fcs sing] ?] ?] ?]|e];
    [|contradiction].
  split.
  - intros f Hf. rewrite (proj1 (Permutation_count_occ string_dec _ _) Hp f).
    now apply NoDup_count_occ'.
  - intros f Hf. exact (Permutation_in _ Hp Hf).
Qed.

Lemma build_final_clusters_partition_witness :
  NoDup (scenario_a_videos ++ scenario_a_assets) /\
  match build_final_clusters
          (fst (cluster_files indel_ratio scenario_a_videos scenario_a_assets))
          scenario_a_videos scenario_a_assets with
  | Ok (final_clusters, final_singletons, _, _, _) =>
      (forall f, In f (scenario_a_videos ++ scenario_a_assets) ->
         count_occ string_dec
           (flat_map fc_members final_clusters ++ final_singletons) f = 1) /\
      (forall f, In f (flat_map fc_members final_clusters ++ final_singletons) ->
         In f (scenario_a_videos ++ scenario_a_assets))
  | Raise _ => False
  end.
Proof.
  assert (Hnd : NoDup (scenario_a_videos ++ scenario_a_assets)).
  { apply (NoDup_count_occ' string_dec). intros x Hx.
    simpl in Hx. repeat destruct Hx as [<-|Hx]; [vm_compute; reflexivity ..|contradiction]. }
  split; [exact Hnd|].
  apply build_final_clusters_partition. exact Hnd.
Defined.

(** C5. Lone seeds: a seed video whose group stays at one member is marked
    as assigned before the group is judged, so [_cluster_files] returns it
    neither in a cluster nor in its singleton list. *)
Theorem cluster_files_drops_lone_seed (ratio : string -> string -> Q) (threshold : Z) :
  cluster_files_at ratio threshold ["Unrelated.avi"] [] = ([], []).
Proof. reflexivity. Qed.

(** C7. Tiering totality: the deduplicated core candidates are split into
    a normal tier (length at least half the mean length) and a short tier
    (length below it); the tiers are duplicate-free and disjoint, and
    together hold exactly the candidates. *)
Theorem tiering_totality (ic : list Cluster) :
  core_candidates_of ic <> [] ->
  let cands := core_candidates_of ic in
  NoDup cands /\
  exists normal_cores short_cores,
    tier_cores cands = Ok (normal_cores, short_cores) /\
    NoDup normal_cores /\ NoDup short_cores /\
    (forall c, ~ (In c normal_cores /\ In c short_cores)) /\
    (forall c, In c cands <-> In c normal_cores \/ In c short_cores) /\
    (forall c, In c normal_cores <->
               In c cands /\ sum_lengths cands <= 2 * List.length cands * String.length c) /\
    (forall c, In c short_cores <->
               In c cands /\ 2 * List.length cands * String.length c < sum_lengths cands).
Proof.
  intros Hne cands. pose proof (core_candidates_NoDup ic) as Hnd.
  split; [exact Hnd|].
  destruct (tier_cores_spec cands Hne Hnd) as [n [s [Ht [Hns [Hn Hs]]]]].
  exists n, s. split; [exact Ht|].
  split; [exact (NoDup_app_remove_r _ _ Hns)|].
  split; [exact (NoDup_app_remove_l _ _ Hns)|].
  split.
  - intros c [H1 H2]. apply Hn in H1. apply Hs in H2. lia.
  - split; [|split; [exact Hn|exact Hs]].
    intros c. rewrite Hn, Hs. split; [|tauto].
    intros Hc. destruct (Nat.le_gt_cases (sum_lengths cands)
                           (2 * List.length cands * String.length c)); tauto.
Qed.

Lemma tiering_totality_witness :
  core_candidates_of
    (fst (cluster_files indel_ratio episodes_videos [])) <> [] /\
  let cands := core_candidates_of (fst (cluster_files indel_ratio episodes_videos [])) in
  NoDup cands /\
  exists normal_cores short_cores,
    tier_cores cands = Ok (normal_cores, short_cores) /\
    NoDup normal_cores /\ NoDup short_cores /\
    (forall c, ~ (In c normal_cores /\ In c short_cores)) /\
    (forall c, In c cands <-> In c normal_cores \/ In c short_cores) /\
    (forall c, In c normal_cores <->
               In c cands /\ sum_lengths cands <= 2 * List.length cands * String.length c) /\
    (forall c, In c short_cores <->
               In c cands /\ 2 * List.length cands * String.length c < sum_lengths cands).
Proof.
  assert (Hne : core_candidates_of (fst (cluster_files indel_ratio episodes_videos [])) <> [])
    by (vm_compute; discriminate).
  split; [exact Hne|]. apply tiering_totality. exact Hne.
Defined.

(** C8. Core fallback: when the stems of a group's members share no
    prefix, the core is the seed's stem; the core is non-empty whenever the
    seed's stem is, and in particular whenever the seed's name is. *)
Theorem core_fallback_seed_stem (cl : Cluster) :
  longest_common_prefix (map stem (members cl)) = "" ->
  fst (compute_core_and_decorations cl) = stem (seed cl) /\
  (stem (seed cl) <> "" -> fst (compute_core_and_decorations cl) <> "") /\
  (seed cl <> "" -> fst (compute_core_and_decorations cl) <> "").
Proof.
  intros Hlcp.
  assert (Hcore : fst (compute_core_and_decorations cl) = stem (seed cl))
    by (unfold compute_core_and_decorations; simpl; now rewrite Hlcp).
  rewrite Hcore. split; [reflexivity|]. split; [tauto|].
  apply stem_nonempty.
Qed.

Lemma core_fallback_seed_stem_witness :
  longest_common_prefix
    (map stem (members {| seed := "Trip.mkv"; members := ["Trip.mkv"; "poster.jpg"] |}))
    = "" /\
  fst (compute_core_and_decorations
         {| seed := "Trip.mkv"; members := ["Trip.mkv"; "poster.jpg"] |}) = "Trip".
Proof.
  assert (H : longest_common_prefix
                (map stem (members {| seed := "Trip.mkv";
                                      members := ["Trip.mkv"; "poster.jpg"] |})) = "")
    by (vm_compute; reflexivity).
  split; [exact H|].
  exact (proj1 (core_fallback_seed_stem _ H)).
Defined.

(** C10. Empty-core guard: with no core candidate, final-cluster
    construction returns no cluster and every candidate file as a
    singleton; and it never raises, in particular never divides by zero
    when computing the mean core length. *)
Theorem build_final_clusters_empty_guard (ic : list Cluster) (v a : list string) :
  (forall e, build_final_clusters ic v a <> Raise e) /\
  (core_candidates_of ic = [] ->
   build_final_clusters ic v a = Ok ([], sort_names (v ++ a), [], [], [])).
Proof.
  split.
  - intros e He. destruct (build_final_clusters_no_raise ic v a) as [r Hr].
    congruence.
  - intros Hempty. unfold build_final_clusters. now rewrite Hempty.
Qed.

Lemma build_final_clusters_empty_guard_witness :
  core_candidates_of [] = [] /\
  build_final_clusters [] ["Unrelated.avi"] ["cover.jpg"] =
    Ok ([], ["Unrelated.avi"; "cover.jpg"], [], [], []).
Proof.
  split; [reflexivity|].
  exact (proj2 (build_final_clusters_empty_guard [] ["Unrelated.avi"] ["cover.jpg"])
               eq_refl).
Defined.

(** C1 (as the code does it). Final assignment by longest prefix: every
    member of a final cluster has the cluster's core, a core candidate,
    as a prefix of its stem, and no core candidate that is a prefix of
    that stem is longer than the cluster's core.  Conversely, every
    candidate file whose stem starts with some core candidate is a member
    of a final cluster whose core is the longest core candidate prefixing
    its stem (any core candidate prefixing the stem that is at most as
    long is that core). *)
Theorem final_assignor_longest_match (ic : list Cluster) (v a : list string) :
  match build_final_clusters ic v a with
  | Ok (final_clusters, _, all_cores, _, _) =>
      (forall fc f, In fc final_clusters -> In f (fc_members fc) ->
        In (core_guess fc) all_cores /\
        startswith (stem f) (core_guess fc) = true /\
        (forall c, In c all_cores -> startswith (stem f) c = true ->
                   String.length c <= String.length (core_guess fc))) /\
      (forall f c, In f (v ++ a) -> In c all_cores -> startswith (stem f) c = true ->
        exists fc, In fc final_clusters /\ In f (fc_members fc) /\
          forall c', In c' all_cores -> startswith (stem f) c' = true ->
            String.length (core_guess fc) <= String.length c' -> c' = core_guess fc)
  | Raise _ => False
  end.
Proof.
  unfold build_final_clusters.
  destruct (core_candidates_of ic) as [|c0 cs] eqn:E.
  - split; [intros fc f []|intros f c _ []].
  - destruct (tier_cores_spec (c0 :: cs)) as [n [s [Ht _]]];
      [discriminate| rewrite <- E; apply core_candidates_NoDup|].
    pose proof (tier_cores_members _ _ _ Ht) as Hmem.
    rewrite Ht. cbn [bind].
    assert (Hlong : forall fc f, In fc (make_final_clusters (n ++ s)
                                   (assign_files (n ++ s) (sort_names (v ++ a)))) ->
              In f (fc_members fc) ->
              In (core_guess fc) (c0 :: cs) /\
              startswith (stem f) (core_guess fc) = true /\
              (forall c, In c (c0 :: cs) -> startswith (stem f) c = true ->
                         String.length c <= String.length (core_guess fc))).
    { intros fc f Hfc Hf.
      destruct (make_final_clusters_in _ _ _ Hfc) as [_ Hms].
      apply Hms, assign_files_best, best_core_spec in Hf as [Hin [Hpre Hl]].
      split; [now apply Hmem|]. split; [exact Hpre|].
      intros c Hc Hcp. apply Hl; [now apply Hmem|exact Hcp]. }
    split; [exact Hlong|].
    intros f c Hf Hc Hs.
    assert (Hfa : In f (sort_names (v ++ a))) by (apply (in_sort_by String.leb), Hf).
    assert (Hco : In c (n ++ s)) by (apply Hmem, Hc).
    pose proof (has_best_of_match _ _ _ Hco Hs) as Hh. unfold has_best in Hh.
    destruct (best_core (n ++ s) f) as [k|] eqn:Hb; [|discriminate].
    destruct (best_core_spec _ _ _ Hb) as [Hk _].
    pose proof (assign_files_lands _ _ _ _ Hfa Hb) as Hl.
    destruct (make_final_clusters_find _ _ _ _ Hk Hl) as [fc [Hfc [Hcore Hmf]]].
    exists fc. split; [exact Hfc|]. split; [exact Hmf|].
    intros c' Hc' Hs' Hle.
    destruct (Hlong fc f Hfc Hmf) as [_ [Hpre Hmax]].
    pose proof (Hmax c' Hc' Hs').
    apply (startswith_same_length (stem f)); [exact Hs'|exact Hpre|lia].
Qed.

(** C1 (as stated) fails: in the episodes folder both cores are normal
    and ordered ["Show"; "Show.S01E0"]; the stem "Show.S01E01" matches the
    first, yet the file goes to the later, longer core. *)
Lemma final_assignor_not_first_match :
  let ic := fst (cluster_files indel_ratio episodes_videos []) in
  tier_cores (core_candidates_of ic) = Ok (["Show"; "Show.S01E0"], []) /\
  startswith (stem "Show.S01E01.mkv") "Show" = true /\
  match build_final_clusters ic episodes_videos [] with
  | Ok (final_clusters, _, _, _, _) =>
      final_clusters =
        [{| core_guess := "Show"; fc_members := ["Show.mkv"; "Show1.mkv"];
            video_count := 2 |};
         {| core_guess := "Show.S01E0";
            fc_members := ["Show.S01E01.mkv"; "Show.S01E02.mkv"];
            video_count := 2 |}]
  | Raise _ => False
  end.
Proof. vm_compute. split; [reflexivity|]. split; reflexivity. Qed.

Lemma final_assignor_longest_match_witness :
  match build_final_clusters (fst (cluster_files indel_ratio episodes_videos []))
          episodes_videos [] with
  | Ok (_, _, all_cores, _, _) =>
      In "Show.S01E0" all_cores /\
      startswith (stem "Show.S01E01.mkv") "Show.S01E0" = true /\
      (forall c, In c all_cores -> startswith (stem "Show.S01E01.mkv") c = true ->
                 String.length c <= String.length "Show.S01E0")
  | Raise _ => False
  end.
Proof.
  pose proof (final_assignor_longest_match
                (fst (cluster_files indel_ratio episodes_videos [])) episodes_videos [])
    as H.
  destruct (build_final_clusters (fst (cluster_files indel_ratio episodes_videos []))
              episodes_videos []) as [[[[[fcs sing] cores] n] sh]|e] eqn:E;
    [|contradiction].
  vm_compute in E. injection E as <- <- <- <- <-.
  exact (proj1 H {| core_guess := "Show.S01E0";
              fc_members := ["Show.S01E01.mkv"; "Show.S01E02.mkv"];
              video_count := 2 |} "Show.S01E01.mkv"
           (or_intror (or_introl eq_refl)) (or_introl eq_refl)).
Defined.

(** C6 (as the code does it). Every mined shared substring has length at
    least 3, keeps a non-empty core after stripping non-alphanumeric ends,
    and occurs in every sampled normal core (the first five).  Conversely,
    every substring of length at least 2 of the first normal core that
    occurs in every sampled normal core, has length at least 3 and a
    non-empty normalized form is represented in the mined list by a
    substring with the same normalized form that is at least as long.
    The mined substrings have pairwise distinct normalized forms and are
    sorted by decreasing length. *)
Theorem mined_substrings_spec (normal_cores : list string) :
  let mined := mine_shared_substrings normal_cores in
  (forall s, In s mined ->
     3 <= String.length s /\ normalize_tag s <> "" /\
     (forall c, In c (firstn 5 normal_cores) -> contains s c = true)) /\
  (forall s, In s (substrings_ge2 (hd "" normal_cores)) ->
     (forall c, In c (firstn 5 normal_cores) -> contains s c = true) ->
     3 <= String.length s -> normalize_tag s <> "" ->
     exists s', In s' mined /\ normalize_tag s' = normalize_tag s /\
                String.length s <= String.length s') /\
  NoDup (map normalize_tag mined) /\
  Sorted (fun x y => len_desc_leb x y = true) mined.
Proof.
  cbv zeta. split; [|split; [|split]].
  - intros s. unfold mine_shared_substrings.
    destruct normal_cores as [|c0 rest]; [intros []|].
    intros Hin. unfold sort_len_desc in Hin. apply in_sort_by, in_map_iff in Hin.
    destruct Hin as [kv [<- Hkv]].
    apply tag_map_of_spec in Hkv as [Hraw [Hlen Hnorm]].
    split; [exact Hlen|]. split; [exact Hnorm|].
    apply in_sort_by in Hraw. simpl firstn in Hraw |- *. simpl hd in Hraw. simpl tl in Hraw.
    apply intersect_loop_spec in Hraw as [Hbase Hothers].
    intros c [<-|Hc]; [|now apply Hothers].
    rewrite !in_set_of in Hbase. now apply substrings_ge2_contained.
  - intros s. unfold mine_shared_substrings.
    destruct normal_cores as [|c0 rest]; [intros []|].
    intros Hsub Hall H3 Hne. cbv zeta. simpl hd in Hsub.
    assert (Hraw : In s (sort_len_desc (intersect_loop (hd "" (firstn 5 (c0 :: rest)))
                     (set_of (substrings_ge2 (hd "" (firstn 5 (c0 :: rest)))))
                     (tl (firstn 5 (c0 :: rest)))))).
    { unfold sort_len_desc. apply in_sort_by. simpl firstn. simpl hd. simpl tl.
      apply intersect_loop_complete; [now apply in_set_of|].
      intros o Ho. apply in_common_substrings; [exact Hsub|].
      apply Hall. simpl firstn. now right. }
    destruct (tag_map_of_complete _ _ Hraw H3 Hne) as [p [Hp Hl]].
    exists p. split; [|split; [|exact Hl]].
    + unfold sort_len_desc at 1. apply in_sort_by, in_map_iff.
      exists (normalize_tag s, p). now split.
    + destruct (tag_map_of_keys (sort_len_desc (intersect_loop (hd "" (firstn 5 (c0 :: rest)))
                     (set_of (substrings_ge2 (hd "" (firstn 5 (c0 :: rest)))))
                     (tl (firstn 5 (c0 :: rest)))))) as [_ Hkv].
      exact (Hkv _ Hp).
  - apply mined_normal_forms_NoDup.
  - unfold mine_shared_substrings. destruct normal_cores as [|c0 rest]; [constructor|].
    apply sort_by_sorted, len_desc_leb_total.
Qed.

Lemma mined_substrings_spec_witness :
  In ".GoPro" (mine_shared_substrings ["Alpine.Trek.GoPro"; "Desert.Run.GoPro"]) /\
  3 <= String.length ".GoPro" /\ normalize_tag ".GoPro" <> "" /\
  (forall c, In c (firstn 5 ["Alpine.Trek.GoPro"; "Desert.Run.GoPro"]) ->
             contains ".GoPro" c = true).
Proof.
  assert (H : In ".GoPro" (mine_shared_substrings ["Alpine.Trek.GoPro"; "Desert.Run.GoPro"]))
    by (apply (proj1 (mem_true_iff _ _)); vm_compute; reflexivity).
  split; [exact H|].
  exact (proj1 (mined_substrings_spec ["Alpine.Trek.GoPro"; "Desert.Run.GoPro"]) _ H).
Defined.

(** C6 (as stated) fails: for the two GoPro trips, "Go" is a length-2
    substring of the first normal core occurring in the second, but the
    mined list leaves it out. *)
Lemma mined_substrings_drop_length_two :
  match build_final_clusters (fst (cluster_files indel_ratio gopro_videos []))
          gopro_videos [] with
  | Ok (_, _, _, normal_cores, shared_substrings) =>
      normal_cores = ["Alpine.Trek.GoPro"; "Desert.Run.GoPro"] /\
      In "Go" (substrings_ge2 "Alpine.Trek.GoPro") /\
      contains "Go" "Desert.Run.GoPro" = true /\
      ~ In "Go" shared_substrings
  | Raise _ => False
  end.
Proof.
  destruct (build_final_clusters (fst (cluster_files indel_ratio gopro_videos []))
              gopro_videos []) as [[[[[fcs sing] cores] n] sh]|e] eqn:E;
    vm_compute in E; [|discriminate].
  injection E as <- <- <- <- <-.
  split; [reflexivity|]. split; [apply (proj1 (mem_true_iff _ _)); vm_compute; reflexivity|].
  split; [vm_compute; reflexivity|]. apply (proj1 (mem_false_iff _ _)). vm_compute. reflexivity.
Qed.




(** C9 (as the code does it). Once the folder arguments are expanded,
    if the folders before some argument run through without an exception
    and that argument resolves to a folder that exists, is a directory, has
    candidate files and whose report cannot be written, then the exception
    of the write escapes [main]: the run stops at that folder, with the
    failed attempt as its last event, and no later folder is processed. *)
Theorem report_write_failure_aborts (ratio : string -> string -> Q) (fs : FileSystem)
  (timestamp : string) (argv pre rest : list string) (folder_arg folder : string)
  (ev0 : list event) (entries : list (string * bool)) :
  map_result (fs_expanduser fs) argv = Ok (pre ++ folder_arg :: rest) ->
  run_folders ratio fs timestamp pre = (ev0, Ok tt) ->
  fs_resolve fs folder_arg = Ok folder ->
  fs_exists fs folder = Ok true ->
  fs_is_dir fs folder = Ok true ->
  fs_iterdir fs folder = Ok entries ->
  list_candidate_files entries <> [] ->
  fs_write_ok fs (report_path timestamp folder) = false ->
  main ratio fs timestamp argv =
    (ev0 ++ [WriteAttempt (report_path timestamp folder)],
     Raise (OSError (report_path timestamp folder))).
Proof.
  intros Hm Hpre Hr He Hd Hi Hcand Hw.
  assert (Hpf : process_folder ratio fs timestamp folder_arg =
                ([WriteAttempt (report_path timestamp folder)],
                 Raise (OSError (report_path timestamp folder)))).
  { unfold process_folder. rewrite Hr, He, Hd, Hi.
    destruct (list_candidate_files entries) as [|f fs'] eqn:Hc; [contradiction|].
    destruct (split_files_by_role (f :: fs')) as [video_files asset_files].
    destruct (cluster_files ratio video_files asset_files) as [initial_clusters ss].
    destruct (build_final_clusters_no_raise initial_clusters video_files asset_files)
      as [r Hr0].
    rewrite Hr0. unfold write_report. rewrite Hw. reflexivity. }
  unfold main. destruct argv as [|a argv'].
  { simpl in Hm. injection Hm as Hm. destruct pre; discriminate. }
  rewrite Hm, (run_folders_app _ _ _ _ _ _ Hpre).
  cbn [run_folders]. rewrite Hpf. reflexivity.
Qed.

Lemma report_write_failure_aborts_witness :
  let fs := two_folder_fs (report_path "20261017-120000" "/media/A") in
  map_result (fs_expanduser fs) ["/media/B"; "/media/A"; "/media/C"] =
    Ok (["/media/B"] ++ "/media/A" :: ["/media/C"]) /\
  run_folders indel_ratio fs "20261017-120000" ["/media/B"] =
    ([WriteAttempt (report_path "20261017-120000" "/media/B");
      Wrote (report_path "20261017-120000" "/media/B")], Ok tt) /\
  fs_resolve fs "/media/A" = Ok "/media/A" /\
  fs_exists fs "/media/A" = Ok true /\
  fs_is_dir fs "/media/A" = Ok true /\
  fs_iterdir fs "/media/A" = Ok [("A.mkv", true)] /\
  list_candidate_files [("A.mkv", true)] <> [] /\
  fs_write_ok fs (report_path "20261017-120000" "/media/A") = false /\
  main indel_ratio fs "20261017-120000" ["/media/B"; "/media/A"; "/media/C"] =
    ([WriteAttempt (report_path "20261017-120000" "/media/B");
      Wrote (report_path "20261017-120000" "/media/B")] ++
     [WriteAttempt (report_path "20261017-120000" "/media/A")],
     Raise (OSError (report_path "20261017-120000" "/media/A"))).
Proof.
  intros fs.
  assert (H1 : map_result (fs_expanduser fs) ["/media/B"; "/media/A"; "/media/C"] =
                 Ok (["/media/B"] ++ "/media/A" :: ["/media/C"])) by reflexivity.
  assert (H2 : run_folders indel_ratio fs "20261017-120000" ["/media/B"] =
                 ([WriteAttempt (report_path "20261017-120000" "/media/B");
                   Wrote (report_path "20261017-120000" "/media/B")], Ok tt))
    by (vm_compute; reflexivity).
  assert (H3 : fs_resolve fs "/media/A" = Ok "/media/A") by reflexivity.
  assert (H4 : fs_exists fs "/media/A" = Ok true) by reflexivity.
  assert (H5 : fs_is_dir fs "/media/A" = Ok true) by reflexivity.
  assert (H6 : fs_iterdir fs "/media/A" = Ok [("A.mkv", true)])
    by (vm_compute; reflexivity).
  assert (H7 : list_candidate_files [("A.mkv", true)] <> [])
    by (vm_compute; discriminate).
  assert (H8 : fs_write_ok fs (report_path "20261017-120000" "/media/A") = false)
    by (vm_compute; reflexivity).
  split; [exact H1|]. split; [exact H2|]. split; [exact H3|]. split; [exact H4|].
  split; [exact H5|]. split; [exact H6|]. split; [exact H7|]. split; [exact H8|].
  exact (report_write_failure_aborts indel_ratio fs "20261017-120000"
           ["/media/B"; "/media/A"; "/media/C"] ["/media/B"] ["/media/C"]
           "/media/A" "/media/A" _ [("A.mkv", true)] H1 H2 H3 H4 H5 H6 H7 H8).
Defined.

(** C9 (as stated) fails: with two folders whose second report could be
    written, a failed write of the first report ends the run; the second
    folder never gets a report attempt. *)
Lemma report_write_failure_not_isolated :
  let fs := two_folder_fs (report_path "20261017-120000" "/media/A") in
  fs_write_ok fs (report_path "20261017-120000" "/media/B") = true /\
  fst (main indel_ratio fs "20261017-120000" ["/media/A"; "/media/B"]) =
    [WriteAttempt (report_path "20261017-120000" "/media/A")] /\
  ~ In (WriteAttempt (report_path "20261017-120000" "/media/B"))
       (fst (main indel_ratio fs "20261017-120000" ["/media/A"; "/media/B"])).
Proof.
  intros fs.
  assert (E : fst (main indel_ratio fs "20261017-120000" ["/media/A"; "/media/B"]) =
              [WriteAttempt (report_path "20261017-120000" "/media/A")])
    by (vm_compute; reflexivity).
  split; [vm_compute; reflexivity|]. split; [exact E|].
  rewrite E. intros [H|[]]. injection H. vm_compute. discriminate.
Qed.

(** C3 (as the code does it). From the same seed, member list and
    assignment ledger, the scan over the videos and the scan over the
    assets at a higher threshold each gather a subset of what they gather
    at a lower threshold. *)
Theorem scan_threshold_mono (ratio : string -> string -> Q) (t1 t2 : Z)
    (seed_name : string) (others assets : list string)
    (cluster_members : list string) (ledger : list (string * bool)) :
  (t1 <= t2)%Z ->
  incl (fst (scan_videos ratio t2 seed_name others cluster_members ledger))
       (fst (scan_videos ratio t1 seed_name others cluster_members ledger)) /\
  incl (fst (scan_assets ratio t2 seed_name assets cluster_members ledger))
       (fst (scan_assets ratio t1 seed_name assets cluster_members ledger)).
Proof.
  intros Ht.
  assert (Hb : scan_below cluster_members ledger cluster_members ledger)
    by (split; [apply incl_refl|intros k Hk; now left]).
  split; [now apply scan_videos_below|now apply scan_assets_below].
Qed.

Lemma scan_threshold_mono_witness :
  (80 <= 90)%Z /\
  incl (fst (scan_videos indel_ratio 90 "Vacation2020.mkv" vacation_videos
               ["Vacation2020.mkv"] [("Vacation2020.mkv", true)]))
       (fst (scan_videos indel_ratio 80 "Vacation2020.mkv" vacation_videos
               ["Vacation2020.mkv"] [("Vacation2020.mkv", true)])) /\
  incl (fst (scan_assets indel_ratio 90 "Vacation2020.mkv" vacation_assets
               ["Vacation2020.mkv"] [("Vacation2020.mkv", true)]))
       (fst (scan_assets indel_ratio 80 "Vacation2020.mkv" vacation_assets
               ["Vacation2020.mkv"] [("Vacation2020.mkv", true)])).
Proof.
  split; [lia|].
  apply (scan_threshold_mono indel_ratio 80 90 "Vacation2020.mkv" vacation_videos
           vacation_assets ["Vacation2020.mkv"] [("Vacation2020.mkv", true)]).
  lia.
Defined.

(** C3 (as stated) fails: on the vacation folder, raising the threshold
    from 80 to 90 turns clusters of at most two files into one of three
    files. *)
Lemma cluster_threshold_not_monotone :
  (forall c, In c (fst (cluster_files_at indel_ratio 80 vacation_videos vacation_assets)) ->
             List.length (members c) <= 2) /\
  (exists c, In c (fst (cluster_files_at indel_ratio 90 vacation_videos vacation_assets)) /\
             List.length (members c) = 3).
Proof.
  assert (E80 : cluster_files_at indel_ratio 80 vacation_videos vacation_assets =
    ([{| seed := "AAcation20y0.mkv";
         members := ["AAcation20y0.mkv"; "Vacation2020.mkv"] |};
      {| seed := "HolidaqzTrwp.2019.mkv";
         members := ["HolidaqzTrwp.2019.mkv"; "Holiday.Trip.2019.mkv"] |};
      {| seed := "Vacation202A.mkv";
         members := ["Vacation202A.mkv"; "Vacation2A20.mkv"] |}],
     ["Holiday.Trip.2019.mkv.jpg"])) by (vm_compute; reflexivity).
  assert (E90 : cluster_files_at indel_ratio 90 vacation_videos vacation_assets =
    ([{| seed := "Holiday.Trip.2019.mkv";
         members := ["Holiday.Trip.2019.mkv"; "Holiday.Trip.2019.mkv.jpg"] |};
      {| seed := "Vacation2020.mkv";
         members := ["Vacation2020.mkv"; "Vacation202A.mkv"; "Vacation2A20.mkv"] |}],
     [])) by (vm_compute; reflexivity).
  rewrite E80, E90. split.
  - intros c Hc. simpl in Hc.
    destruct Hc as [<-|[<-|[<-|[]]]]; simpl; lia.
  - eexists. split; [right; left; reflexivity|reflexivity].
Qed.

(* ================================================================== *)
(** * Further properties of the code *)

(** X1. [_longest_common_prefix] returns a common prefix of all its
    (at least one) inputs, and the longest one: every common prefix of
    the inputs is a prefix of the result. *)
Theorem longest_common_prefix_spec (s0 : string) (rest : list string) :
  (forall s, In s (s0 :: rest) -> startswith s (longest_common_prefix (s0 :: rest)) = true) /\
  (forall p, (forall s, In s (s0 :: rest) -> startswith s p = true) ->
             startswith (longest_common_prefix (s0 :: rest)) p = true).
Proof.
  unfold longest_common_prefix, startswith.
  destruct (lcp_loop_spec rest s0) as [H1 [H2 H3]].
  split.
  - intros s [<-|Hs]; apply prefix_iff; [exact H1|now apply H2].
  - intros p Hp. apply prefix_iff. apply H3.
    + apply prefix_iff, Hp. now left.
    + intros s Hs. apply prefix_iff, Hp. now right.
Qed.

(** X2. [_split_decoration_tokens] yields nonempty tokens free of
    separator characters, and concatenating them gives back exactly the
    non-separator characters of the input, in order. *)
Theorem split_decoration_tokens_spec (decoration_part : string) :
  (forall t, In t (split_decoration_tokens decoration_part) ->
     t <> "" /\ forall c, In c (list_ascii_of_string t) -> is_separator c = false) /\
  flat_map list_ascii_of_string (split_decoration_tokens decoration_part) =
    filter (fun c => negb (is_separator c)) (list_ascii_of_string decoration_part).
Proof.
  unfold split_decoration_tokens.
  destruct (String.eqb_spec decoration_part "") as [->|_].
  - split; [intros _ []|reflexivity].
  - destruct (split_tokens_loop_spec decoration_part "" [] (or_introl eq_refl)
                (fun t H => match H with end)) as [H1 H2].
    split; [exact H1|]. exact H2.
Qed.

(** X3. [_sanitize_folder_name] always returns a nonempty name made of
    alphanumeric characters and underscores, which neither begins nor
    ends with an underscore. *)
Theorem sanitize_folder_name_shape (folder : string) :
  let s := sanitize_folder_name folder in
  s <> "" /\
  (forall i c, String.get i s = Some c -> is_alnum c = true \/ c = "_"%char) /\
  String.get 0 s <> Some "_"%char /\
  String.get (String.length s - 1) s <> Some "_"%char.
Proof.
  unfold sanitize_folder_name. cbv zeta.
  set (base := if String.eqb (base_name folder) "" then "root" else base_name folder).
  set (m := map_string (fun ch => if is_alnum ch then ch else "_"%char) base).
  destruct (String.eqb_spec (rstrip_us (lstrip_us m)) "") as [E|E].
  - split; [discriminate|]. split; [|split; simpl; congruence].
    intros i c H. left.
    do 6 (destruct i as [|i]; [simpl in H; injection H as <-; reflexivity|]).
    discriminate.
  - split; [exact E|]. split; [|split].
    + intros i c H. apply rstrip_us_get, lstrip_us_get in H as [j Hj].
      unfold m in Hj. rewrite get_map_string in Hj.
      destruct (String.get j base) as [x|]; [|discriminate].
      simpl in Hj. injection Hj as <-.
      destruct (is_alnum x) eqn:Hx; [now left|now right].
    + rewrite rstrip_us_first by exact E. apply lstrip_us_first.
    + now apply rstrip_us_last.
Qed.

(** X4. [_list_candidate_files] returns, sorted by name, exactly the
    entries of the folder that are regular files, not hidden, and whose
    lower-cased suffix is a known extension. *)
Theorem list_candidate_files_spec (entries : list (string * bool)) :
  Sorted (fun a b => String.leb a b = true) (list_candidate_files entries) /\
  (forall n, In n (list_candidate_files entries) <->
             In (n, true) entries /\ is_hidden n = false /\
             In (lower (suffix n)) ALL_EXTENSIONS).
Proof.
  unfold list_candidate_files. split; [apply sort_names_sorted|].
  intros n. unfold sort_names. rewrite in_sort_by, candidate_loop_spec. simpl. tauto.
Qed.

(** X5. [_split_files_by_role] returns two sorted lists: the videos are
    the files with a video extension, the assets those with an asset and
    no video extension, and together they are a permutation of the
    files with a known extension. *)
Theorem split_files_by_role_spec (files : list string) :
  let '(video_files, asset_files) := split_files_by_role files in
  Sorted (fun a b => String.leb a b = true) video_files /\
  Sorted (fun a b => String.leb a b = true) asset_files /\
  (forall f, In f video_files <->
             In f files /\ In (lower (suffix f)) VIDEO_EXTENSIONS) /\
  (forall f, In f asset_files <->
             In f files /\ ~ In (lower (suffix f)) VIDEO_EXTENSIONS /\
             In (lower (suffix f)) ASSET_EXTENSIONS) /\
  Permutation (video_files ++ asset_files)
              (filter (fun f => mem (lower (suffix f)) ALL_EXTENSIONS) files).
Proof.
  unfold split_files_by_role. rewrite split_loop_eq. cbn [app].
  split; [apply sort_names_sorted|]. split; [apply sort_names_sorted|].
  split; [|split].
  - intros f. unfold sort_names. rewrite in_sort_by, filter_In, mem_true_iff. tauto.
  - intros f. unfold sort_names. rewrite in_sort_by, filter_In, andb_true_iff,
      negb_true_iff, mem_false_iff, !mem_true_iff. tauto.
  - unfold sort_names.
    rewrite (sort_by_perm _ (filter _ files)), (sort_by_perm _ (filter _ files)).
    rewrite filter_split_perm. apply Permutation_refl'. apply filter_ext.
    intros f. unfold mem, ALL_EXTENSIONS. now rewrite existsb_app.
Qed.

(** X6. For distinct input files, the clusters of [_cluster_files] are
    pairwise disjoint and no file occurs twice in one of them; every
    cluster has at least two members, sorted by name, contains its seed,
    which is a video, and only holds input files. *)
Theorem cluster_files_clusters_disjoint (ratio : string -> string -> Q) (threshold : Z)
    (video_files asset_files : list string) :
  NoDup (video_files ++ asset_files) ->
  let '(clusters, _) := cluster_files_at ratio threshold video_files asset_files in
  NoDup (flat_map members clusters) /\
  (forall c, In c clusters ->
     2 <= List.length (members c) /\ In (seed c) (members c) /\
     In (seed c) video_files /\ incl (members c) (video_files ++ asset_files) /\
     Sorted (fun x y => String.leb x y = true) (members c)).
Proof.
  intros Hnd. exact (cluster_files_invariant ratio threshold video_files asset_files Hnd).
Qed.

Lemma cluster_files_clusters_disjoint_witness :
  NoDup (vacation_videos ++ vacation_assets) /\
  NoDup (flat_map members
           (fst (cluster_files_at indel_ratio 80 vacation_videos vacation_assets))).
Proof.
  assert (Hnd : NoDup (vacation_videos ++ vacation_assets))
    by (repeat constructor; simpl; intuition discriminate).
  split; [exact Hnd|].
  pose proof (cluster_files_clusters_disjoint indel_ratio 80
                vacation_videos vacation_assets Hnd) as H.
  destruct (cluster_files_at indel_ratio 80 vacation_videos vacation_assets) as [cl ss].
  exact (proj1 H).
Defined.

(** X7. When there is at least one core candidate, the tiering of
    [_build_final_clusters] succeeds with at least one normal core, and
    every short core is strictly shorter than every normal core. *)
Theorem tiers_normal_nonempty_longer (ic : list Cluster) :
  core_candidates_of ic <> [] ->
  exists normal_cores short_cores,
    tier_cores (core_candidates_of ic) = Ok (normal_cores, short_cores) /\
    normal_cores <> [] /\
    (forall n s, In n normal_cores -> In s short_cores ->
                 String.length s < String.length n).
Proof.
  intros Hne.
  destruct (tier_cores_spec _ Hne (core_candidates_NoDup ic))
    as [n [s [Ht [_ [Hn Hs]]]]].
  exists n, s. split; [exact Ht|]. split.
  - destruct (sum_lengths_le_max _ Hne) as [m [Hm Hsum]].
    assert (Hin : In m n) by (apply Hn; split; [exact Hm|nia]).
    destruct n; [destruct Hin|discriminate].
  - intros x y Hx Hy. apply Hn in Hx as [_ Hx]. apply Hs in Hy as [_ Hy].
    assert (Hpos : 0 < List.length (core_candidates_of ic))
      by (destruct (core_candidates_of ic); [congruence|simpl; lia]).
    nia.
Qed.

Lemma tiers_normal_nonempty_longer_witness :
  let ic := [{| seed := "Show.S01E01.mkv";
                members := ["Show.S01E01.mkv"; "Show.S01E02.mkv"] |}] in
  core_candidates_of ic <> [] /\
  exists normal_cores short_cores,
    tier_cores (core_candidates_of ic) = Ok (normal_cores, short_cores) /\
    normal_cores <> [].
Proof.
  intros ic.
  assert (Hne : core_candidates_of ic <> []) by (vm_compute; discriminate).
  split; [exact Hne|].
  destruct (tiers_normal_nonempty_longer ic Hne) as [n [s [H1 [H2 _]]]].
  exists n, s. split; [exact H1|exact H2].
Defined.

(** X8. The shared substrings mined in [_build_final_clusters] are
    pairwise distinct after tag normalisation and sorted longest first. *)
Theorem shared_substrings_distinct_sorted (normal_cores : list string) :
  NoDup (map normalize_tag (mine_shared_substrings normal_cores)) /\
  Sorted (fun x y => len_desc_leb x y = true) (mine_shared_substrings normal_cores).
Proof.
  unfold mine_shared_substrings. destruct normal_cores as [|c0 rest].
  - split; constructor.
  - cbv zeta. unfold sort_len_desc at 1.
    split; [|apply sort_by_sorted, len_desc_leb_total].
    set (tm := tag_map_of _).
    destruct (tag_map_of_keys (sort_len_desc (intersect_loop (hd "" (firstn 5 (c0 :: rest)))
                 (set_of (substrings_ge2 (hd "" (firstn 5 (c0 :: rest)))))
                 (tl (firstn 5 (c0 :: rest)))))) as [Hnd Hkv].
    fold tm in Hnd, Hkv.
    apply (Permutation_NoDup (Permutation_map normalize_tag
                               (Permutation_sym (sort_by_perm len_desc_leb _)))).
    rewrite map_map.
    replace (map (fun x => normalize_tag (snd x)) tm) with (map fst tm); [exact Hnd|].
    apply map_ext_in. intros kv Hin. symmetry. now apply Hkv.
Qed.

(** X9. The final clusters of [_build_final_clusters] have distinct
    cores drawn from the core list; each has a nonempty sorted member
    list of input files whose stems start with the core, and its video
    count is the number of video members. *)
Theorem final_clusters_shape (ic : list Cluster) (v a : list string) :
  match build_final_clusters ic v a with
  | Ok (final_clusters, _, all_cores, _, _) =>
      NoDup (map core_guess final_clusters) /\
      forall fc, In fc final_clusters ->
        In (core_guess fc) all_cores /\
        fc_members fc <> [] /\
        Sorted (fun x y => String.leb x y = true) (fc_members fc) /\
        (forall f, In f (fc_members fc) ->
                   In f (v ++ a) /\ startswith (stem f) (core_guess fc) = true) /\
        video_count fc = List.length (filter is_video (fc_members fc))
  | Raise _ => False
  end.
Proof.
  unfold build_final_clusters.
  destruct (core_candidates_of ic) as [|c cs] eqn:E.
  - split; [constructor|intros fc []].
  - destruct (tier_cores_spec (c :: cs)) as [n [s [Ht [Hnd _]]]];
      [discriminate| rewrite <- E; apply core_candidates_NoDup|].
    rewrite Ht. cbn [bind].
    set (o := n ++ s). set (all := sort_names (v ++ a)).
    set (d := assign_files o all).
    split.
    + unfold make_final_clusters. rewrite make_final_clusters_cores. simpl.
      apply NoDup_filter, Hnd.
    + intros fc Hfc.
      destruct (make_final_clusters_in o d fc Hfc) as [Ho Hmem].
      destruct (make_final_clusters_shape o d fc Hfc) as [Hne [Hm Hv]].
      split; [exact (proj1 (tier_cores_members _ _ _ Ht _) Ho)|].
      split; [rewrite Hm; intros H; apply Hne;
              apply Permutation_nil; rewrite <- H; apply sort_by_perm|].
      split; [rewrite Hm; apply sort_names_sorted|].
      split.
      * intros f Hf. apply Hmem in Hf.
        pose proof (assign_files_best o all _ _ Hf) as Hb.
        split; [|exact (proj1 (proj2 (best_core_spec o f _ Hb)))].
        apply ldict_get_in_flat in Hf.
        apply (Permutation_in _ (assign_files_assigned o all)), filter_In in Hf.
        apply (in_sort_by String.leb), Hf.
      * rewrite Hv, Hm. apply Permutation_length, Permutation_filter_compat.
        symmetry. apply sort_by_perm.
Qed.

(** X10. The final singletons of [_build_final_clusters] are sorted
    input files whose stems start with none of the cores. *)
Theorem final_singletons_unmatched (ic : list Cluster) (v a : list string) :
  match build_final_clusters ic v a with
  | Ok (_, final_singletons, all_cores, _, _) =>
      Sorted (fun x y => String.leb x y = true) final_singletons /\
      forall f, In f final_singletons ->
        In f (v ++ a) /\
        forall c, In c all_cores -> startswith (stem f) c = false
  | Raise _ => False
  end.
Proof.
  unfold build_final_clusters.
  destruct (core_candidates_of ic) as [|c cs] eqn:E.
  - split; [apply sort_names_sorted|]. intros f Hf.
    split; [exact (proj1 (in_sort_by _ _ _) Hf)|intros _ []].
  - destruct (tier_cores_spec (c :: cs)) as [n [s [Ht [Hnd _]]]];
      [discriminate| rewrite <- E; apply core_candidates_NoDup|].
    rewrite Ht. cbn [bind].
    split; [apply sort_names_sorted|].
    intros f Hf. apply in_sort_by, filter_In in Hf as [Hall Hna].
    split; [exact (proj1 (in_sort_by _ _ _) Hall)|].
    intros c' Hc'. destruct (startswith (stem f) c') eqn:Hs; [|reflexivity].
    exfalso. apply negb_true_iff, mem_false_iff in Hna. apply Hna.
    apply (Permutation_in _ (Permutation_sym (assign_files_assigned _ _))), filter_In.
    split; [exact Hall|]. apply (has_best_of_match _ _ c'); [|exact Hs].
    exact (proj2 (tier_cores_members _ _ _ Ht _) Hc').
Qed.

(** X11. The file count written by [_write_report] for the result of
    [_build_final_clusters] is the number of distinct input files. *)
Theorem report_file_count (ic : list Cluster) (v a : list string) :
  match build_final_clusters ic v a with
  | Ok (final_clusters, final_singletons, _, _, _) =>
      List.length (considered_files final_clusters final_singletons) =
      List.length (set_of (v ++ a))
  | Raise _ => False
  end.
Proof.
  pose proof (build_final_clusters_perm ic v a) as Hp.
  destruct (build_final_clusters ic v a) as [[[[[fcs sing] ?] ?] ?]|e]; [|exact Hp].
  unfold considered_files, sort_names. rewrite (Permutation_length (sort_by_perm _ _)).
  now apply set_of_perm_length.
Qed.

(** X12. A core is reported as dismissed by [_write_report] exactly when
    it is a core and every input file whose stem starts with it also
    starts with a strictly longer core. *)
Theorem dismissed_cores_spec (ic : list Cluster) (v a : list string) :
  match build_final_clusters ic v a with
  | Ok (final_clusters, _, all_cores, _, _) =>
      forall c, In c (dismissed_cores final_clusters all_cores) <->
        In c all_cores /\
        forall f, In f (v ++ a) -> startswith (stem f) c = true ->
          exists c', In c' all_cores /\ startswith (stem f) c' = true /\
                     String.length c < String.length c'
  | Raise _ => False
  end.
Proof.
  unfold build_final_clusters.
  destruct (core_candidates_of ic) as [|c0 cs] eqn:E.
  - intros c. simpl. split; [intros []|intros [[] _]].
  - destruct (tier_cores_spec (c0 :: cs)) as [n [s [Ht [Hnd _]]]];
      [discriminate| rewrite <- E; apply core_candidates_NoDup|].
    rewrite Ht. cbn [bind].
    set (o := n ++ s). set (all := sort_names (v ++ a)).
    set (d := assign_files o all).
    pose proof (tier_cores_members _ _ _ Ht) as Ho. fold o in Ho.
    assert (Hcores : forall c, In c (map core_guess (make_final_clusters o d)) <->
                               In c o /\ ldict_get d c <> []).
    { intros c. unfold make_final_clusters. rewrite make_final_clusters_cores. simpl.
      rewrite filter_In. destruct (ldict_get d c); split; intros [H1 H2]; try easy. }
    intros c. unfold dismissed_cores. rewrite filter_In, negb_true_iff, mem_false_iff,
      Hcores. split.
    + intros [Hc Hnot]. split; [exact Hc|]. intros f Hf Hs.
      assert (Hfa : In f all) by (apply (in_sort_by String.leb), Hf).
      assert (Hco : In c o) by (apply Ho, Hc).
      destruct (best_core o f) as [k|] eqn:Hb.
      2: { pose proof (has_best_of_match o f c Hco Hs) as Hh.
           unfold has_best in Hh. rewrite Hb in Hh. discriminate. }
      destruct (best_core_spec o f k Hb) as [Hk [Hks Hmax]].
      pose proof (Hmax c Hco Hs) as Hle.
      destruct (Nat.lt_ge_cases (String.length c) (String.length k)) as [Hlt|Hge].
      * exists k. split; [apply Ho, Hk|]. split; assumption.
      * exfalso. assert (Heq : c = k)
          by (apply (startswith_same_length (stem f)); [exact Hs|exact Hks|lia]).
        subst k. apply Hnot. split; [exact Hco|].
        pose proof (assign_files_lands o all f c Hfa Hb) as Hl. fold d in Hl.
        destruct (ldict_get d c); [destruct Hl|discriminate].
    + intros [Hc Hall]. split; [exact Hc|]. intros [Hco Hne].
      destruct (ldict_get d c) as [|f fs'] eqn:Hg; [congruence|].
      assert (Hf : In f (ldict_get d c)) by (rewrite Hg; now left).
      pose proof (assign_files_best o all c f Hf) as Hb.
      destruct (best_core_spec o f c Hb) as [_ [Hs Hmax]].
      assert (Hfv : In f (v ++ a)).
      { apply ldict_get_in_flat in Hf.
        apply (Permutation_in _ (assign_files_assigned o all)), filter_In in Hf.
        apply (in_sort_by String.leb), (proj1 Hf). }
      destruct (Hall f Hfv Hs) as [c' [Hc' [Hs' Hlt]]].
      pose proof (Hmax c' (proj2 (Ho c') Hc') Hs'). lia.
Qed.

(** X13. When every report can be written, at least one folder is given,
    the arguments expand, and every expanded argument resolves to a folder
    whose reads ([exists], [is_dir], and the listing when it is a directory)
    raise nothing, [main] returns 0 and writes exactly one report per
    argument whose resolved folder exists, is a directory and holds a
    candidate file, at the report path of the resolved folder. *)
Theorem main_all_writes_ok (ratio : string -> string -> Q) (fs : FileSystem)
    (timestamp : string) (argv folder_args : list string) :
  (forall p, fs_write_ok fs p = true) -> argv <> [] ->
  map_result (fs_expanduser fs) argv = Ok folder_args ->
  (forall a, In a folder_args ->
     exists folder, fs_resolve fs a = Ok folder /\
       (fs_exists fs folder = Ok false \/
        (fs_exists fs folder = Ok true /\
         (fs_is_dir fs folder = Ok false \/
          (fs_is_dir fs folder = Ok true /\
           exists entries, fs_iterdir fs folder = Ok entries))))) ->
  snd (main ratio fs timestamp argv) = Ok 0 /\
  forall p, In (Wrote p) (fst (main ratio fs timestamp argv)) <->
    exists a folder entries, In a folder_args /\ fs_resolve fs a = Ok folder /\
      fs_exists fs folder = Ok true /\ fs_is_dir fs folder = Ok true /\
      fs_iterdir fs folder = Ok entries /\ list_candidate_files entries <> [] /\
      p = report_path timestamp folder.
Proof.
  intros Hw Hne Hm Hreads. unfold main. destruct argv as [|x argv]; [congruence|].
  rewrite Hm.
  destruct (run_folders_writes_ok ratio fs timestamp folder_args Hw Hreads)
    as [ev [E H]].
  rewrite E. split; [reflexivity|exact H].
Qed.

Lemma main_all_writes_ok_witness :
  let fs := {| fs_expanduser := fun arg => Ok arg;
               fs_resolve := fun folder => Ok ("/home/user/" ++ folder)%string;
               fs_exists := fun _ => Ok true;
               fs_is_dir := fun _ => Ok true;
               fs_iterdir := fun _ => Ok [("Show.S01E01.mkv", true)];
               fs_write_ok := fun _ => true |} in
  (forall p, fs_write_ok fs p = true) /\ ["Shows"] <> [] /\
  map_result (fs_expanduser fs) ["Shows"] = Ok ["Shows"] /\
  snd (main indel_ratio fs "20260101_000000" ["Shows"]) = Ok 0.
Proof.
  intros fs.
  assert (Hw : forall p, fs_write_ok fs p = true) by (intros p; reflexivity).
  assert (Ha : ["Shows"] <> []) by discriminate.
  assert (Hm : map_result (fs_expanduser fs) ["Shows"] = Ok ["Shows"]) by reflexivity.
  split; [exact Hw|]. split; [exact Ha|]. split; [exact Hm|].
  refine (proj1 (main_all_writes_ok indel_ratio fs "20260101_000000" ["Shows"]
                   ["Shows"] Hw Ha Hm _)).
  intros a [<-|[]]. exists "/home/user/Shows". split; [reflexivity|].
  right. split; [reflexivity|]. right. split; [reflexivity|].
  eexists. reflexivity.
Defined.
